(** * Carrefour invoice parser: the receipt-line classifier, the date
      extractor and the CSV merge utility, embedded from
      [invoice_parser.py] and [merge_csv.py]. *)

From Stdlib Require Import String Ascii Sorted.
From stdpp Require Import base option list gmap.

Local Open Scope N_scope.

(** ** Python [str] values

    A Python [str] is a sequence of Unicode code points. *)

Definition str := list N.

(** Source constants are written as UTF-8 string literals and decoded to
    code points, so that they read as in the Python files. *)
Fixpoint utf8_decode (bs : list N) : str :=
  match bs with
  | [] => []
  | b0 :: t0 =>
      if b0 <? 128 then b0 :: utf8_decode t0
      else
        match t0 with
        | [] => []
        | b1 :: t1 =>
            if b0 <? 224 then ((b0 - 192) * 64 + (b1 - 128)) :: utf8_decode t1
            else
              match t1 with
              | [] => []
              | b2 :: t2 =>
                  if b0 <? 240
                  then ((b0 - 224) * 4096 + (b1 - 128) * 64 + (b2 - 128)) :: utf8_decode t2
                  else
                    match t2 with
                    | [] => []
                    | b3 :: t3 =>
                        ((b0 - 240) * 262144 + (b1 - 128) * 4096
                         + (b2 - 128) * 64 + (b3 - 128)) :: utf8_decode t3
                    end
              end
        end
  end.

Definition u (s : string) : str :=
  utf8_decode (map N_of_ascii (list_ascii_of_string s)).

(** [c in (lo..hi)] on code points. *)
Definition between (lo hi c : N) : bool := (lo <=? c) && (c <=? hi).

(** [str.isspace] on one code point, which is also what [\s] matches and
    what [str.strip()] removes: CPython's [_PyUnicode_IsWhitespace]. *)
Definition is_space (c : N) : bool :=
  between 9 13 c || between 28 32 c || (c =? 133) || (c =? 160)
  || (c =? 5760) || between 8192 8202 c || (c =? 8232) || (c =? 8233)
  || (c =? 8239) || (c =? 8287) || (c =? 12288).

(** [s.startswith(prefix)] *)
Fixpoint startswith (s prefix : str) : bool :=
  match prefix with
  | [] => true
  | p :: prefix' =>
      match s with
      | [] => false
      | c :: s' => (c =? p) && startswith s' prefix'
      end
  end.

(** [s.lstrip()], [s.rstrip()] and [s.strip()] with no argument. *)
Fixpoint lstrip (s : str) : str :=
  match s with
  | [] => []
  | c :: s' => if is_space c then lstrip s' else s
  end.

Definition rstrip (s : str) : str := rev (lstrip (rev s)).

Definition strip (s : str) : str := rstrip (lstrip s).

(** [s.replace(old, new)] for a one-character [old]. *)
Definition replace_char (old : N) (new : str) (s : str) : str :=
  flat_map (fun c => if c =? old then new else [c]) s.

(** [sep.join(parts)] *)
Fixpoint join (sep : str) (parts : list str) : str :=
  match parts with
  | [] => []
  | [p] => p
  | p :: rest => p ++ sep ++ join sep rest
  end.

(** [s.split(sep)] for a one-character separator: always at least one
    piece, and an empty piece between two adjacent separators. *)
Fixpoint split_on (sep : N) (s : str) : list str :=
  match s with
  | [] => [[]]
  | c :: s' =>
      if c =? sep then [] :: split_on sep s'
      else
        match split_on sep s' with
        | [] => [[c]]
        | piece :: rest => (c :: piece) :: rest
        end
  end.

(** ** The Unicode tables of the Python runtime

    Digits, case mappings and [str.lower] are fixed here on the Latin-1
    repertoire (and the euro sign), which is the alphabet of the source's
    own constants.  What the runtime's Unicode database says about every
    other code point is a parameter of the development. *)

Class UnicodeData := {
  (** decimal digits (category Nd) beyond Latin-1, with their value *)
  ud_decimal : N -> option N;
  (** the simple lowercase mapping beyond Latin-1 ([Py_UNICODE_TOLOWER]),
      which case-insensitive regex literals compare with *)
  ud_tolower : N -> N;
  (** [str.lower()] on a string that leaves the fixed repertoire *)
  ud_lower : str -> str
}.

(** Lowercase mapping on Latin-1: A-Z and the accented capitals
    U+00C0..U+00DE without the multiplication sign. *)
Definition latin1_tolower (c : N) : N :=
  if between 65 90 c || (between 192 222 c && negb (c =? 215)) then c + 32 else c.

(** The fixed repertoire: Latin-1 and the euro sign. *)
Definition in_repertoire (c : N) : bool := (c <? 256) || (c =? 8364).

(** A runtime whose tables hold, beyond that repertoire, KELVIN SIGN
    (U+212A, lowercase k) and nothing else: no further digit, no further
    cased letter. *)
Definition receipt_tables : UnicodeData :=
  {| ud_decimal := fun _ => None;
     ud_tolower := fun c => if c =? 8490 then 107 else c;
     ud_lower :=
       map (fun c => if c =? 8490 then 107
                     else if in_repertoire c then latin1_tolower c else c) |}.

(** ** Regular expressions

    The fragment of Python's [re] that the source uses, with [re]'s
    backtracking priorities: alternatives left to right, greedy
    quantifiers longest first, lazy ones shortest first. *)

Inductive cclass :=
| Lit (c : N)            (** a literal character *)
| LitI (c : N)           (** a cased literal under [re.IGNORECASE] *)
| Digit                  (** [\d] *)
| Space                  (** [\s] *)
| Dot                    (** [.]: anything but a newline *)
| Range (lo hi : N)      (** [[lo-hi]] *)
| OneOf (l : list N).    (** [[abc]] *)

Inductive regex :=
| Eps
| Bol                                     (** [^] *)
| Eol                                     (** [$] *)
| Chr (p : cclass)
| Seq (r1 r2 : regex)
| Alt (r1 r2 : regex)                     (** [r1|r2] *)
| Opt (r : regex)                         (** [(?:r)?] *)
| Rep (p : cclass) (lo : nat) (hi : option nat) (greedy : bool)
                                          (** [p{lo,hi}], [p*], [p+], [p+?] *)
| Grp (name : string) (r : regex).        (** [(?P<name>r)] *)

Definition cat (rs : list regex) : regex := foldr Seq Eps rs.
Definition star (p : cclass) : regex := Rep p 0 None true.
Definition plus (p : cclass) : regex := Rep p 1 None true.
Definition plus_lazy (p : cclass) : regex := Rep p 1 None false.
Definition times (p : cclass) (lo hi : nat) : regex := Rep p lo (Some hi) true.
Definition lit (c : string) : N := hd 0 (u c).

(** A match in progress: the text still to read and the groups bound so
    far, most recent first. *)
Definition captures := list (string * str).
Definition cont := str -> captures -> option (str * captures).

(** [m.group(name)] *)
Fixpoint group (name : string) (cs : captures) : str :=
  match cs with
  | [] => []
  | (n, v) :: cs' => if String.eqb n name then v else group name cs'
  end.

(** Backtracking: the first alternative that leads to a whole match wins. *)
Notation "x 'orelse' y" :=
  (match x with Some res => Some res | None => y end)
  (at level 70, no associativity, only parsing).

(** [p{lo,hi}] over a character test, longest first or shortest first. *)
Fixpoint rep (test : N -> bool) (lo : nat) (hi : option nat) (greedy : bool)
    (s : str) (k : str -> option (str * captures)) : option (str * captures) :=
  let stop (_ : unit) := match lo with O => k s | S _ => None end in
  let more (_ : unit) :=
    match hi, s with
    | Some O, _ => None
    | _, [] => None
    | _, c :: s' =>
        if test c then rep test (Nat.pred lo) (Nat.pred <$> hi) greedy s' k else None
    end in
  if greedy then more () orelse stop () else stop () orelse more ().

(** ** Exceptions *)

Inductive exn :=
| ValueError          (** an out-of-range date; differing column sets *)
| KeyError            (** the sort column is absent *)
| TypeError           (** ordering a missing cell *)
| FileNotFoundError   (** no such folder, or no file matches *)
| DecodeError.        (** a file that cannot be read *)

Inductive result (A : Type) :=
| Ok (a : A)
| Raise (e : exn).
Arguments Ok {A} a.
Arguments Raise {A} e.

Definition bind {A B} (x : result A) (f : A -> result B) : result B :=
  match x with Ok a => f a | Raise e => Raise e end.

Notation "x <- c ;; k" := (bind c (fun x => k))
  (at level 100, c at next level, right associativity).

(** One output row: [(name, type, price-kg, QTE x P.U, amount, date)]. *)
Record row := mkRow {
  row_name : str;
  row_type : str;
  row_price_kg : str;
  row_qte_pu : str;
  row_amount : str;
  row_date : str
}.

Section InvoiceParser.

Context `{UnicodeData}.

(** [\d]: a decimal digit (category Nd). *)
Definition is_digit (c : N) : bool :=
  if in_repertoire c then between 48 57 c else bool_decide (is_Some (ud_decimal c)).

Definition digit_value (c : N) : N :=
  if in_repertoire c then c - 48 else default 0 (ud_decimal c).

(** The lowercase of one code point. *)
Definition tolower (c : N) : N :=
  if in_repertoire c then latin1_tolower c else ud_tolower c.

(** [s.lower()] *)
Definition lower (s : str) : str :=
  if forallb in_repertoire s then map latin1_tolower s else ud_lower s.

(** [int(s)] on a run of decimal digits. *)
Definition int (s : str) : N :=
  foldl (fun acc c => acc * 10 + digit_value c) 0 s.

Definition in_class (p : cclass) (c : N) : bool :=
  match p with
  | Lit a => c =? a
  | LitI a => tolower c =? a
  | Digit => is_digit c
  | Space => is_space c
  | Dot => negb (c =? 10)
  | Range lo hi => between lo hi c
  | OneOf l => existsb (N.eqb c) l
  end.

(** The matcher proper.  [n] is the length of the whole subject, which
    [^] needs; [s] is what is left of it, [cs] the groups bound so far and
    [k] what remains to be matched after [r]. *)
Fixpoint exec (n : nat) (r : regex) (s : str) (cs : captures) (k : cont)
    : option (str * captures) :=
  match r with
  | Eps => k s cs
  | Bol => if Nat.eqb (length s) n then k s cs else None
  | Eol =>
      match s with
      | [] => k s cs
      | [c] => if c =? 10 then k s cs else None
      | _ => None
      end
  | Chr p =>
      match s with
      | c :: s' => if in_class p c then k s' cs else None
      | [] => None
      end
  | Seq r1 r2 => exec n r1 s cs (fun s1 cs1 => exec n r2 s1 cs1 k)
  | Alt r1 r2 => exec n r1 s cs k orelse exec n r2 s cs k
  | Opt r1 => exec n r1 s cs k orelse k s cs
  | Rep p lo hi greedy => rep (in_class p) lo hi greedy s (fun s' => k s' cs)
  | Grp name r1 =>
      exec n r1 s cs
        (fun s' cs' => k s' ((name, take (length s - length s') s) :: cs'))
  end.

Definition accept : cont := fun s cs => Some (s, cs).

(** [rx.match(s)]: a match at the start of [s]; the result is the text
    after the match and the groups. *)
Definition re_match (r : regex) (s : str) : option (str * captures) :=
  exec (length s) r s [] accept.

(** [rx.search(s)]: the match at the leftmost position that has one. *)
Fixpoint search_from (n : nat) (r : regex) (s : str) : option (str * captures) :=
  exec n r s [] accept orelse
  match s with
  | [] => None
  | _ :: s' => search_from n r s'
  end.

Definition re_search (r : regex) (s : str) : option (str * captures) :=
  search_from (length s) r s.

(** [re.sub(r, repl, s)] for a constant replacement: the matches are taken
    left to right without overlap; [skip] counts the characters of the
    current match still to drop. *)
Fixpoint sub_from (n : nat) (r : regex) (repl : str) (s : str) (skip : nat) : str :=
  match s with
  | [] =>
      match exec n r [] [] accept with
      | Some _ => repl
      | None => []
      end
  | c :: s' =>
      match skip with
      | S skip' => sub_from n r repl s' skip'
      | O =>
          match exec n r s [] accept with
          | Some (rest, _) =>
              match (length s - length rest)%nat with
              | O => repl ++ c :: sub_from n r repl s' 0
              | S skip' => repl ++ sub_from n r repl s' skip'
              end
          | None => c :: sub_from n r repl s' 0
          end
      end
  end.

Definition re_sub (r : regex) (repl : str) (s : str) : str :=
  sub_from (length s) r repl s 0.

(** ** invoice_parser.py *)

(** [\d+(?:[.,]\d+)?] *)
Definition decimal_any : regex :=
  cat [plus Digit; Opt (cat [Chr (OneOf (u ".,")); plus Digit])].

(** [\d+(?:[.,]\d{1,2})?] *)
Definition decimal_2 : regex :=
  cat [plus Digit; Opt (cat [Chr (OneOf (u ".,")); times Digit 1 2])].

Definition PRICE_KG_RE : regex :=
  cat [Bol; star Space;
       Grp "weight" decimal_any;
       star Space; Chr (LitI (lit "k")); Chr (LitI (lit "g"));
       star Space; Chr (LitI (lit "x")); star Space;
       Grp "price" decimal_any;
       star Space; Chr (Lit (lit "€")); star Space; Chr (Lit (lit "/"));
       star Space; Chr (LitI (lit "k")); Chr (LitI (lit "g"));
       star Space; Eol].

Definition PRODUCT_RE : regex :=
  cat [Bol; star Space;
       Opt (Alt
              (cat [Alt (cat [times Digit 1 2;
                              Opt (cat [Chr (OneOf (u ".,")); Chr Digit])])
                        (times (Range (lit "0") (lit "9")) 1 2);
                    star Space; Chr (Lit (lit "%"))])
              (cat [times Digit 1 2; Chr (Lit (lit ".")); times Digit 1 2;
                    star Space; Chr (Lit (lit "%"))]));
       star Space;
       Grp "name" (plus_lazy Dot);
       plus Space;
       Grp "qty" (plus Digit);
       star Space; Chr (LitI (lit "x")); star Space;
       Grp "unit" decimal_2;
       plus Space;
       Grp "amount" (cat [Opt (Chr (Lit (lit "-"))); decimal_2]);
       star Space; Eol].

Definition SKIP_PREFIXES : list str :=
  [u "remise immédiate";
   u "total";
   u "taux tva";
   u "détails de vos avantages";
   u "avantages -10%";
   u "ma carte";
   u "€ crédités";
   u "vignettes";
   u "payé par";
   u "tva produit";
   u "carte bancaire"].

Definition DATE_RE_SLASH : regex :=
  cat [Grp "d" (times Digit 2 2); Chr (Lit (lit "/"));
       Grp "m" (times Digit 2 2); Chr (Lit (lit "/"));
       Grp "y" (times Digit 4 4);
       star Space;
       Opt (cat [Chr (Lit (lit "à")); star Space]);
       Grp "h" (times Digit 1 2); Chr (OneOf (u "h:"));
       Grp "min" (times Digit 2 2)].

Definition DATE_RE_DOT : regex :=
  cat [Grp "d" (times Digit 2 2); Chr (OneOf (u "."));
       Grp "m" (times Digit 2 2); Chr (OneOf (u "."));
       Grp "y" (times Digit 2 4);
       plus Space;
       Grp "h" (times Digit 1 2); Chr (OneOf (u ":"));
       Grp "min" (times Digit 2 2)].

Definition DATE_RES : list regex := [DATE_RE_SLASH; DATE_RE_DOT].

Definition normalize_decimal (s : str) : str :=
  replace_char (lit ",") (u ".") s.


(** The name as it leaves the product pattern still carries a percentage
    when the optional prefix of the pattern did not take it:
    [^\s*\d{1,2}(?:[.,]\d{1,2})?\s*%\s*] *)
Definition NAME_PERCENT_RE : regex :=
  cat [Bol; star Space; times Digit 1 2;
       Opt (cat [Chr (OneOf (u ".,")); times Digit 1 2]);
       star Space; Chr (Lit (lit "%")); star Space].

(** [\s{2,}] *)
Definition SPACES_RE : regex := Rep Space 2 None true.

(** *** [datetime(y, m, d, h, minute)] and [strftime("%d/%m/%Y")] *)

Record datetime := mkDatetime {
  dt_year : N; dt_month : N; dt_day : N; dt_hour : N; dt_minute : N
}.

Definition is_leap (y : N) : bool :=
  (y mod 4 =? 0) && (negb (y mod 100 =? 0) || (y mod 400 =? 0)).

Definition days_in_month (y m : N) : N :=
  if m =? 2 then (if is_leap y then 29 else 28)
  else if (m =? 4) || (m =? 6) || (m =? 9) || (m =? 11) then 30 else 31.

(** The constructor raises [ValueError] on a field out of range. *)
Definition new_datetime (y m d h mi : N) : result datetime :=
  if between 1 9999 y && between 1 12 m && between 1 (days_in_month y m) d
     && (h <=? 23) && (mi <=? 59)
  then Ok (mkDatetime y m d h mi)
  else Raise ValueError.

Definition digit_char (n : N) : N := 48 + n mod 10.

Definition two_digits (n : N) : str := [digit_char (n / 10); digit_char n].

Definition four_digits (n : N) : str :=
  [digit_char (n / 1000); digit_char (n / 100); digit_char (n / 10); digit_char n].

(** The year as [%Y] gives it.  CPython hands [%Y] to the [strftime] of
    the C library, which on Linux writes the year in decimal without
    padding: three digits for the years 100 to 999, four from 1000 on. *)
Definition year_digits (y : N) : str :=
  if y <? 10 then [digit_char y]
  else if y <? 100 then [digit_char (y / 10); digit_char y]
  else if y <? 1000 then [digit_char (y / 100); digit_char (y / 10); digit_char y]
  else four_digits y.

(** [dt.strftime("%d/%m/%Y")] *)
Definition strftime_dmY (dt : datetime) : str :=
  two_digits (dt_day dt) ++ u "/" ++ two_digits (dt_month dt) ++ u "/"
  ++ year_digits (dt_year dt).

(** The body of [find_date]'s loop once a pattern has matched. *)
Definition date_of_match (m : captures) : result (option str) :=
  let d := int (group "d" m) in
  let mth := int (group "m" m) in
  let y := int (group "y" m) in
  let y := if y <? 100 then y + 2000 else y in
  let h := int (group "h" m) in
  let minute := int (group "min" m) in
  dt <- new_datetime y mth d h minute ;;
  Ok (Some (strftime_dmY dt)).

Fixpoint find_date_in (res : list regex) (all_text : str) : result (option str) :=
  match res with
  | [] => Ok None
  | rx :: res' =>
      match re_search rx all_text with
      | Some (_, m) => date_of_match m
      | None => find_date_in res' all_text
      end
  end.

Definition find_date (all_text : str) : result (option str) :=
  find_date_in DATE_RES all_text.

(** *** [parse_lines_to_rows]

    The state of the loop is [out] and [pending_pricekg]; [parse_line] is
    one turn of the loop body. *)
Definition parse_line (invoice_date : option str) (st : list row * list str)
    (raw : str) : list row * list str :=
  let (out, pending_pricekg) := st in
  let line := strip raw in
  if bool_decide (line = []) then st
  else
    match re_match PRICE_KG_RE line with
    | Some (_, mkg) =>
        let weight := normalize_decimal (group "weight" mkg) in
        let price := normalize_decimal (group "price" mkg) in
        let pricekg_str := weight ++ u "kg x " ++ price ++ u "€/kg" in
        (out, pending_pricekg ++ [pricekg_str])
    | None =>
        let line_lower := lower line in
        if existsb (startswith line_lower) SKIP_PREFIXES then st
        else
          match re_match PRODUCT_RE line with
          | Some (_, mp) =>
              let name := strip (group "name" mp) in
              let name := strip (re_sub NAME_PERCENT_RE [] name) in
              let name := re_sub SPACES_RE (u " ") name in
              let qty := group "qty" mp in
              let unit := normalize_decimal (group "unit" mp) in
              let amount := normalize_decimal (group "amount" mp) in
              let qte_pu := qty ++ u " x " ++ unit in
              let pricekg := hd [] pending_pricekg in
              let pending_pricekg := tl pending_pricekg in
              if startswith (lower name) (u "remise") then (out, pending_pricekg)
              else
                (out ++ [mkRow name [] pricekg qte_pu amount (default [] invoice_date)],
                 pending_pricekg)
          | None => st
          end
    end.

(** The loop from an arbitrary state. *)
Definition run (invoice_date : option str) (st : list row * list str)
    (lines : list str) : list row * list str :=
  foldl (parse_line invoice_date) st lines.

Definition parse_lines_to_rows (lines : list str) (invoice_date : option str)
    : list row :=
  fst (run invoice_date ([], []) lines).

(** *** [extract_pdf_to_rows]

    The PDF decoder is outside the repository: a document is given by its
    pages, each the text [extract_text()] returned, or [None] when it
    returned nothing or raised. *)
Definition all_text_of (pages : list (option str)) : str :=
  let page_texts := map (default []) pages in
  join [10] page_texts.

Definition extract_pdf_to_rows (pages : list (option str)) : result (list row) :=
  let all_text := all_text_of pages in
  inv_date <- find_date all_text ;;
  let lines := split_on 10 all_text in
  Ok (parse_lines_to_rows lines inv_date).

(** *** [extract_invoices_to_csv]

    The loop over the documents, in path order: a document whose
    extraction raises is reported on the console and gives no row. *)
Fixpoint collect_rows (docs : list (list (option str))) : list row :=
  match docs with
  | [] => []
  | p :: docs' =>
      match extract_pdf_to_rows p with
      | Ok rows => rows ++ collect_rows docs'
      | Raise _ => collect_rows docs'
      end
  end.

(** The table written to [output_csv]: the fixed header and the rows. *)
Definition extract_invoices_to_csv (docs : list (list (option str)))
    : list str * list row :=
  ([u "name"; u "type"; u "price-kg"; u "QTE x P.U"; u "amount"; u "date"],
   collect_rows docs).

(** *** The classifier as the specification describes it

    The specification reads the loop body as a dispatch: each line falls
    into one of five categories, tested in a fixed order, and the category
    alone decides what happens to the state.  [classify] and [apply_class]
    follow that description; they are compared with [parse_line] below. *)

Inductive line_class :=
| SkippedBlank
| WeightPrice (pricekg_str : str)
| Noise
| Product (name qte_pu amount : str)
| Unrecognized.

Definition is_blank (raw : str) : Prop := strip raw = [].

Definition matches_weight_price (raw : str) : Prop :=
  is_Some (re_match PRICE_KG_RE (strip raw)).

Definition has_noise_prefix (raw : str) : Prop :=
  Exists (fun prefix => startswith (lower (strip raw)) prefix = true) SKIP_PREFIXES.

Definition matches_product (raw : str) : Prop :=
  is_Some (re_match PRODUCT_RE (strip raw)).

Definition display_weight_price (m : captures) : str :=
  normalize_decimal (group "weight" m) ++ u "kg x "
  ++ normalize_decimal (group "price" m) ++ u "€/kg".

Definition clean_name (m : captures) : str :=
  re_sub SPACES_RE (u " ")
    (strip (re_sub NAME_PERCENT_RE [] (strip (group "name" m)))).

Definition classify (raw : str) : line_class :=
  if bool_decide (strip raw = []) then SkippedBlank
  else
    match re_match PRICE_KG_RE (strip raw) with
    | Some (_, m) => WeightPrice (display_weight_price m)
    | None =>
        if existsb (startswith (lower (strip raw))) SKIP_PREFIXES then Noise
        else
          match re_match PRODUCT_RE (strip raw) with
          | Some (_, m) =>
              Product (clean_name m)
                (group "qty" m ++ u " x " ++ normalize_decimal (group "unit" m))
                (normalize_decimal (group "amount" m))
          | None => Unrecognized
          end
    end.

Definition is_discount (name : str) : bool :=
  startswith (lower name) (u "remise").

Definition apply_class (invoice_date : option str) (c : line_class)
    (st : list row * list str) : list row * list str :=
  match c with
  | SkippedBlank | Noise | Unrecognized => st
  | WeightPrice s => (fst st, snd st ++ [s])
  | Product name qte_pu amount =>
      if is_discount name then (fst st, tl (snd st))
      else
        (fst st ++ [mkRow name [] (hd [] (snd st)) qte_pu amount
                      (default [] invoice_date)],
         tl (snd st))
  end.

(** The display strings of the weight-price lines, in document order. *)
Definition weights (lines : list str) : list str :=
  omap (fun raw => match classify raw with
                   | WeightPrice s => Some s
                   | _ => None
                   end) lines.

Definition is_product (raw : str) : Prop :=
  exists name qte_pu amount, classify raw = Product name qte_pu amount.

Definition is_weight_price (raw : str) : Prop :=
  exists s, classify raw = WeightPrice s.

(** A string that is empty or begins with a character that is no digit;
    no date pattern matches at its start. *)
Definition starts_without_digit (s : str) : Prop :=
  match s with
  | [] => True
  | c :: _ => is_digit c = false
  end.

(** The lines the loop acts on: weight-price lines and product lines. *)
Definition carries_data (raw : str) : bool :=
  match classify raw with
  | WeightPrice _ | Product _ _ _ => true
  | _ => false
  end.

End InvoiceParser.

(** A row under another date. *)
Definition with_date (d : str) (r : row) : row :=
  mkRow (row_name r) (row_type r) (row_price_kg r) (row_qte_pu r) (row_amount r) d.

(** A string that is empty or begins with a character that is no space. *)
Definition no_leading_space (s : str) : Prop :=
  match s with
  | [] => True
  | c :: _ => is_space c = false
  end.

(** A string in which no two white-space characters stand side by side. *)
Fixpoint no_double_space (s : str) : Prop :=
  match s with
  | c1 :: ((c2 :: _) as t) =>
      (is_space c1 = false \/ is_space c2 = false) /\ no_double_space t
  | _ => True
  end.

(** The number of white-space characters a string begins with. *)
Definition leading_spaces (s : str) : nat := (length s - length (lstrip s))%nat.

(** The weight-price fields of the rows that have one, in row order. *)
Definition priced (rows : list row) : list str :=
  filter (fun s => s <> []) (map row_price_kg rows).

(** ** merge_csv.py *)

(** A cell of a row read by [csv.DictReader]: a string, or [None] where
    the line was shorter than the header. *)
Definition cell := option str.

(** What [_read_csv_dicts] returns for one path: the header and the rows
    as dictionaries from column name to cell. *)
Record csv_file := mkCsv {
  csv_header : list str;
  csv_rows : list (gmap str cell)
}.

(** The arguments of [merge_csv_folder], with the folder seen through what
    the function asks of it: whether it is a directory, and the sorted
    [glob] matches, each with the outcome of reading it. *)
Record merge_args := mkArgs {
  folder_is_dir : bool;
  paths : list (result csv_file);
  output_csv : str;
  dedupe : bool;
  sort_by : option str
}.

(** The files written so far, latest first.  A file is recorded as what
    is handed to [csv.writer]: the header and the rows of cells (the writer
    prints a missing cell like an empty string, as an empty field). *)
Definition table := (list str * list (list cell))%type.
Definition disk := list (str * table).

(** [rd.get(col, "")] *)
Definition dict_get (rd : gmap str cell) (col : str) : cell :=
  default (Some []) (rd !! col).

(** [set(header) != set(first_header)] *)
Definition columns_differ (header first_header : list str) : bool :=
  bool_decide ((list_to_set header : gset str) ≠ list_to_set first_header).

(** One turn of the loop over [paths]; the state is [first_header] and
    [merged_rows] (the two counters of the source are never read). *)
Definition merge_file (st : table) (p : result csv_file) : result table :=
  f <- p ;;
  let (first_header, merged_rows) := st in
  let header := csv_header f in
  if bool_decide (header = []) then Ok st
  else
    first_header <-
      (if bool_decide (first_header = []) then Ok header
       else if columns_differ header first_header then Raise ValueError
       else Ok first_header) ;;
    Ok (first_header,
        merged_rows ++ map (fun rd => map (dict_get rd) first_header) (csv_rows f)).

Fixpoint merge_files (st : table) (ps : list (result csv_file)) : result table :=
  match ps with
  | [] => Ok st
  | p :: ps' => st' <- merge_file st p ;; merge_files st' ps'
  end.

(** The deduplication loop: [seen] is the set of rows already kept. *)
Fixpoint unique_rows (seen : gset (list cell)) (rows : list (list cell))
    : list (list cell) :=
  match rows with
  | [] => []
  | r :: rows' =>
      if bool_decide (r ∈ seen) then unique_rows seen rows'
      else r :: unique_rows ({[r]} ∪ seen) rows'
  end.

(** [a < b] on strings: by code points, a proper prefix first. *)
Fixpoint str_ltb (a b : str) : bool :=
  match a, b with
  | _, [] => false
  | [], _ :: _ => true
  | x :: a', y :: b' => (x <? y) || ((x =? y) && str_ltb a' b')
  end.

(** [first_header.index(sort_by)], known to be there. *)
Fixpoint index_of (x : str) (l : list str) : nat :=
  match l with
  | [] => O
  | y :: l' => if bool_decide (y = x) then O else S (index_of x l')
  end.

(** The sort key [r[idx]] as a string. *)
Definition key_at (idx : nat) (r : list cell) : str :=
  default [] (mjoin (r !! idx)).

Fixpoint insert_sorted (idx : nat) (x : list cell) (l : list (list cell))
    : list (list cell) :=
  match l with
  | [] => [x]
  | y :: l' =>
      if str_ltb (key_at idx y) (key_at idx x) then y :: insert_sorted idx x l'
      else x :: l
  end.

(** [merged_rows.sort(key=lambda r: r[idx])]: stable, and a [TypeError]
    as soon as a missing cell has to be compared, which happens whenever
    there are two rows or more. *)
Definition sort_rows (idx : nat) (rows : list (list cell)) : result (list (list cell)) :=
  if (2 <=? length rows)%nat
     && existsb (fun r => bool_decide (mjoin (r !! idx) = None)) rows
  then Raise TypeError
  else Ok (foldr (insert_sorted idx) [] rows).

(** [if sort_by:] *)
Definition truthy (s : option str) : option str :=
  match s with
  | Some (c :: s') => Some (c :: s')
  | _ => None
  end.

(** [merge_csv_folder]: the checks and the merge first, the one write
    last.  The path returned is given as [output_csv]; the source returns
    its absolute form, [os.path.abspath(output_csv)], a name of the same
    file that depends on the working directory. *)
Definition merge_csv_folder (a : merge_args) (d : disk) : result str * disk :=
  let attempt : result table :=
    if negb (folder_is_dir a) then Raise FileNotFoundError
    else if bool_decide (paths a = []) then Raise FileNotFoundError
    else
      st <- merge_files ([], []) (paths a) ;;
      let (first_header, merged_rows) := st in
      let merged_rows :=
        if dedupe a then unique_rows ∅ merged_rows else merged_rows in
      merged_rows <-
        match truthy (sort_by a) with
        | Some col =>
            if bool_decide (col ∈ first_header)
            then sort_rows (index_of col first_header) merged_rows
            else Raise KeyError
        | None => Ok merged_rows
        end ;;
      Ok (first_header, merged_rows) in
  match attempt with
  | Ok t => (Ok (output_csv a), (output_csv a, t) :: d)
  | Raise e => (Raise e, d)
  end.

(** The header of the first file that has one: what [first_header] is
    once the loop has passed these files. *)
Fixpoint first_header_of (files : list csv_file) : list str :=
  match files with
  | [] => []
  | f :: files' =>
      if bool_decide (csv_header f = []) then first_header_of files'
      else csv_header f
  end.

(** The header the loop holds after [files], starting with [first_header]. *)
Definition header_after (first_header : list str) (files : list csv_file) : list str :=
  if bool_decide (first_header = []) then first_header_of files else first_header.

(** Rows in the order of the sort key of column [idx]: no row has a key
    below that of the row before it. *)
Definition sorted_by (idx : nat) (rows : list (list cell)) : Prop :=
  Sorted (fun r1 r2 => str_ltb (key_at idx r2) (key_at idx r1) = false) rows.

(** The number of data rows of the files that have a header. *)
Fixpoint data_rows (files : list csv_file) : nat :=
  match files with
  | [] => O
  | f :: files' =>
      if bool_decide (csv_header f = []) then data_rows files'
      else (length (csv_rows f) + data_rows files')%nat
  end.

(** The rows merged so far have the width of the header, and there is no
    row before there is a header. *)
Definition rows_fit (st : table) : Prop :=
  Forall (fun r => length r = length (fst st)) (snd st)
  /\ (fst st = [] -> snd st = []).

(** The same invocation over another list of files. *)
Definition with_paths (a : merge_args) (ps : list (result csv_file)) : merge_args :=
  mkArgs (folder_is_dir a) ps (output_csv a) (dedupe a) (sort_by a).

(** * Properties *)

Section InvoiceParserProperties.

Context `{UnicodeData}.

(** ** The loop body is the dispatch of the specification *)

Lemma parse_line_classify invoice_date st raw :
  parse_line invoice_date st raw = apply_class invoice_date (classify raw) st.
Proof.
  destruct st as [out pending].
  unfold parse_line, classify.
  case_bool_decide; [reflexivity|].
  destruct (re_match PRICE_KG_RE (strip raw)) as [[rest mkg]|]; [reflexivity|].
  destruct (existsb _ SKIP_PREFIXES); [reflexivity|].
  destruct (re_match PRODUCT_RE (strip raw)) as [[rest mp]|]; [|reflexivity].
  cbn [apply_class fst snd]. unfold is_discount, clean_name.
  destruct (startswith _ (u "remise")); reflexivity.
Qed.

Lemma run_app invoice_date st l1 l2 :
  run invoice_date st (l1 ++ l2) = run invoice_date (run invoice_date st l1) l2.
Proof. apply foldl_app. Qed.

Lemma run_cons invoice_date st raw l :
  run invoice_date st (raw :: l) =
  run invoice_date (apply_class invoice_date (classify raw) st) l.
Proof. unfold run. cbn [foldl]. now rewrite parse_line_classify. Qed.

Lemma parse_lines_to_rows_run lines invoice_date :
  parse_lines_to_rows lines invoice_date = fst (run invoice_date ([], []) lines).
Proof. reflexivity. Qed.

Lemma noise_prefix_spec raw :
  existsb (startswith (lower (strip raw))) SKIP_PREFIXES = true <-> has_noise_prefix raw.
Proof.
  unfold has_noise_prefix. rewrite existsb_exists, Exists_exists.
  split; intros (p & Hin & Hp); exists p; (split; [|exact Hp]).
  - now apply list_elem_of_In.
  - now apply list_elem_of_In.
Qed.

Lemma no_match_not_some {A} (o : option A) : o = None <-> ~ is_Some o.
Proof.
  split.
  - intros -> [x Hx]. discriminate.
  - intros Hn. destruct o; [|reflexivity]. exfalso. apply Hn. eauto.
Qed.

Ltac absurd_some :=
  let x := fresh "x" in let Hx := fresh "Hx" in intros [x Hx]; discriminate.

(** How [classify] decides, test by test. *)
Lemma classify_blank raw : classify raw = SkippedBlank <-> is_blank raw.
Proof.
  unfold classify, is_blank. case_bool_decide as Hb.
  - tauto.
  - split; [|tauto].
    destruct (re_match PRICE_KG_RE _) as [[? ?]|]; [discriminate|].
    destruct (existsb _ _); [discriminate|].
    destruct (re_match PRODUCT_RE _) as [[? ?]|]; discriminate.
Qed.

Lemma classify_weight_price raw :
  is_weight_price raw <-> ~ is_blank raw /\ matches_weight_price raw.
Proof.
  unfold is_weight_price, classify, is_blank, matches_weight_price.
  case_bool_decide as Hb.
  - split; [intros [s Hs]; discriminate | tauto].
  - destruct (re_match PRICE_KG_RE _) as [[rest m]|].
    + split; eauto.
    + split; [intros [s Hs] | intros [_ [x Hx]]; discriminate].
      destruct (existsb _ _); [discriminate|].
      destruct (re_match PRODUCT_RE _) as [[? ?]|]; discriminate.
Qed.

Lemma classify_noise raw :
  classify raw = Noise <->
  ~ is_blank raw /\ ~ matches_weight_price raw /\ has_noise_prefix raw.
Proof.
  rewrite <- noise_prefix_spec.
  unfold classify, is_blank, matches_weight_price.
  case_bool_decide as Hb; [split; [discriminate | tauto]|].
  destruct (re_match PRICE_KG_RE _) as [[rest m]|].
  - split; [discriminate|]. intros (_ & Hn & _). exfalso. apply Hn. eauto.
  - destruct (existsb _ _).
    + split; [|reflexivity]. intros _. repeat split; [exact Hb|].
      intros [x Hx]. discriminate.
    + split; [|intros (_ & _ & ?); discriminate].
      destruct (re_match PRODUCT_RE _) as [[? ?]|]; discriminate.
Qed.

Lemma classify_product raw :
  is_product raw <->
  ~ is_blank raw /\ ~ matches_weight_price raw /\ ~ has_noise_prefix raw
  /\ matches_product raw.
Proof.
  rewrite <- noise_prefix_spec.
  unfold is_product, classify, is_blank, matches_weight_price, matches_product.
  case_bool_decide as Hb; [split; [intros (?&?&?&?); discriminate | tauto]|].
  destruct (re_match PRICE_KG_RE _) as [[rest m]|].
  - split; [intros (?&?&?&?); discriminate|].
    intros (_ & Hn & _). exfalso. apply Hn. eauto.
  - destruct (existsb _ _).
    + split; [intros (?&?&?&?); discriminate|]. intros (_ & _ & Hn & _). tauto.
    + destruct (re_match PRODUCT_RE _) as [[rest m]|].
      * split; [|eauto]. intros _. repeat split; eauto; try discriminate; absurd_some.
      * split; [intros (?&?&?&?); discriminate|].
        intros (_ & _ & _ & [x Hx]). discriminate.
Qed.

Lemma classify_unrecognized raw :
  classify raw = Unrecognized <->
  ~ is_blank raw /\ ~ matches_weight_price raw /\ ~ has_noise_prefix raw
  /\ ~ matches_product raw.
Proof.
  rewrite <- noise_prefix_spec.
  unfold classify, is_blank, matches_weight_price, matches_product.
  case_bool_decide as Hb; [split; [discriminate | tauto]|].
  destruct (re_match PRICE_KG_RE _) as [[rest m]|].
  - split; [discriminate|]. intros (_ & Hn & _). exfalso. apply Hn. eauto.
  - destruct (existsb _ _).
    + split; [discriminate|]. intros (_ & _ & Hn & _). tauto.
    + destruct (re_match PRODUCT_RE _) as [[rest m]|].
      * split; [discriminate|]. intros (_ & _ & _ & Hn). exfalso. apply Hn. eauto.
      * split; [|reflexivity]. intros _.
        repeat split; try exact Hb; try discriminate; absurd_some.
Qed.

(** Only a product line can add a record. *)
Lemma apply_class_out invoice_date c st :
  (forall name qte_pu amount, c <> Product name qte_pu amount) ->
  fst (apply_class invoice_date c st) = fst st.
Proof.
  intros Hc. destruct c; try reflexivity.
  exfalso. eapply Hc. reflexivity.
Qed.

(** ** The worked example of the specification *)

(** C1 (as amended): for the two lines ["0.350 kg x 12,50 €/kg"] and
    ["5% CHISTORRA REFLETS 1 x 4.70 4.70"], with any date,
    [parse_lines_to_rows] emits exactly one record, with name
    ["CHISTORRA REFLETS"], quantity-times-unit ["1 x 4.70"], amount
    ["4.70"], and weight-price ["0.350kg x 12.50€/kg"]: the decimal comma
    becomes a point and the digits of the weight are kept as printed. *)
Theorem chistorra_example invoice_date :
  parse_lines_to_rows
    [u "0.350 kg x 12,50 €/kg"; u "5% CHISTORRA REFLETS 1 x 4.70 4.70"]
    invoice_date
  = [mkRow (u "CHISTORRA REFLETS") [] (u "0.350kg x 12.50€/kg")
       (u "1 x 4.70") (u "4.70") (default [] invoice_date)].
Proof. vm_compute. reflexivity. Qed.

(** ** Classification *)

(** C7: every line falls into exactly one of the five categories, decided
    by the tests in the order blank, weight-price, noise, product; the loop
    body does what the category says and nothing else.  A line that matches
    the weight-price pattern is enqueued whatever the product pattern would
    say of it, and a line with a noise prefix leaves the state as it is even
    when the product pattern matches it. *)
Theorem classification_total_in_precedence_order invoice_date st raw :
  parse_line invoice_date st raw = apply_class invoice_date (classify raw) st
  /\ (is_blank raw \/ is_weight_price raw \/ classify raw = Noise
      \/ is_product raw \/ classify raw = Unrecognized)
  /\ (classify raw = SkippedBlank <-> is_blank raw)
  /\ (is_weight_price raw <-> ~ is_blank raw /\ matches_weight_price raw)
  /\ (classify raw = Noise <->
      ~ is_blank raw /\ ~ matches_weight_price raw /\ has_noise_prefix raw)
  /\ (is_product raw <->
      ~ is_blank raw /\ ~ matches_weight_price raw /\ ~ has_noise_prefix raw
      /\ matches_product raw)
  /\ (classify raw = Unrecognized <->
      ~ is_blank raw /\ ~ matches_weight_price raw /\ ~ has_noise_prefix raw
      /\ ~ matches_product raw)
  /\ (~ is_blank raw -> matches_weight_price raw ->
      exists s, parse_line invoice_date st raw = (fst st, snd st ++ [s]))
  /\ (has_noise_prefix raw ->
      ~ is_product raw /\ fst (parse_line invoice_date st raw) = fst st).
Proof.
  split; [apply parse_line_classify|].
  split.
  { destruct (classify raw) eqn:Hc; unfold is_weight_price, is_product.
    - left. now apply classify_blank.
    - eauto.
    - eauto.
    - right. right. right. left. eauto.
    - eauto 6. }
  split; [apply classify_blank|].
  split; [apply classify_weight_price|].
  split; [apply classify_noise|].
  split; [apply classify_product|].
  split; [apply classify_unrecognized|].
  split.
  - intros Hb Hw. destruct (proj2 (classify_weight_price raw)) as [s Hs]; [tauto|].
    exists s. now rewrite parse_line_classify, Hs.
  - intros Hn. split.
    + intros Hp. apply classify_product in Hp. tauto.
    + rewrite parse_line_classify. apply apply_class_out.
      intros name qte_pu amount Hc.
      assert (Hp : is_product raw) by (unfold is_product; eauto).
      apply classify_product in Hp. tauto.
Qed.

(** ** Discount lines *)


(** C5 (as amended): a line that reaches the product pattern, being
    neither blank nor a weight-price line nor a line with a noise prefix,
    and matches it, takes the head of the pending queue, also when its
    name begins with "remise" and no record is emitted; the value taken by
    such a line is lost: no later record depends on it. *)
Theorem product_line_dequeues_even_when_discount
    invoice_date out w pending raw name qte_pu amount :
  classify raw = Product name qte_pu amount ->
  snd (parse_line invoice_date (out, w :: pending) raw) = pending
  /\ snd (parse_line invoice_date (out, []) raw) = []
  /\ (is_discount name = true ->
      parse_line invoice_date (out, w :: pending) raw = (out, pending)
      /\ forall w' rest,
           run invoice_date (out, w :: pending) (raw :: rest)
           = run invoice_date (out, w' :: pending) (raw :: rest)).
Proof.
  intros Hc. rewrite !parse_line_classify, Hc. cbn [apply_class fst snd].
  destruct (is_discount name) eqn:Hd; cbn [snd tl].
  - split; [reflexivity|]. split; [reflexivity|]. intros _.
    split; [reflexivity|]. intros w' rest.
    rewrite !run_cons, Hc. cbn [apply_class fst snd]. now rewrite Hd.
  - split; [reflexivity|]. split; [reflexivity|]. discriminate.
Qed.

(** ** The pending queue *)

Lemma weights_app l1 l2 : weights (l1 ++ l2) = weights l1 ++ weights l2.
Proof. apply omap_app. Qed.

Lemma weights_cons raw l :
  weights (raw :: l) =
  match classify raw with WeightPrice s => s :: weights l | _ => weights l end.
Proof. unfold weights. simpl. destruct (classify raw); reflexivity. Qed.

(** Without a product line the records stay and the queue only grows. *)
Lemma run_no_product invoice_date l : forall st,
  Forall (fun raw => ~ is_product raw) l ->
  run invoice_date st l = (fst st, snd st ++ weights l).
Proof.
  induction l as [|raw l IH]; intros [out pending] Hl.
  - cbn. now rewrite app_nil_r.
  - inversion Hl as [|? ? Hraw Hl']; subst.
    rewrite run_cons, weights_cons.
    destruct (classify raw) eqn:Hc; cbn [apply_class fst snd];
      try (rewrite IH by assumption; reflexivity).
    + rewrite IH by assumption. cbn [fst snd]. now rewrite <- app_assoc.
    + exfalso. apply Hraw. unfold is_product. eauto.
Qed.

(** Records are only ever appended. *)
Lemma run_out_grows invoice_date l : forall st,
  exists later, fst (run invoice_date st l) = fst st ++ later.
Proof.
  induction l as [|raw l IH]; intros st.
  - exists []. cbn. now rewrite app_nil_r.
  - rewrite run_cons. destruct (IH (apply_class invoice_date (classify raw) st)) as [later ->].
    destruct (classify raw); cbn [apply_class]; eauto.
    destruct (is_discount name); cbn [fst]; eauto.
    rewrite <- app_assoc. eauto.
Qed.

Lemma tl_drop {A} (l : list A) : forall k, tl (drop k l) = drop (S k) l.
Proof.
  induction l as [|x l IH]; intros [|k]; try reflexivity.
  cbn [drop]. apply IH.
Qed.

(** What is pending is always an end piece of the weight-price strings
    read so far, in the order they were read. *)
Lemma pending_is_suffix invoice_date lines :
  exists k, (k <= length (weights lines))%nat /\
    snd (run invoice_date ([], []) lines) = drop k (weights lines).
Proof.
  induction lines as [|raw lines IH] using rev_ind.
  - exists O. split; [cbn; lia | reflexivity].
  - destruct IH as (k & Hk & IH).
    rewrite run_app, weights_app. cbn [run foldl]. rewrite parse_line_classify.
    fold (run invoice_date ([], []) lines).
    assert (Hw : weights [raw] =
                 match classify raw with WeightPrice s => [s] | _ => [] end).
    { rewrite weights_cons. destruct (classify raw); reflexivity. }
    rewrite Hw.
    destruct (classify raw) eqn:Hc; cbn [apply_class];
      try (exists k; rewrite app_nil_r; split; [exact Hk | exact IH]).
    + exists k. rewrite length_app. cbn [snd length]. split; [lia|].
      rewrite IH. now rewrite drop_app_le by exact Hk.
    + rewrite app_nil_r.
      assert (Htl : tl (snd (run invoice_date ([], []) lines))
                    = drop (Nat.min (S k) (length (weights lines))) (weights lines)).
      { rewrite IH. destruct (decide (k = length (weights lines))) as [->|Hne].
        - rewrite Nat.min_r by lia. now rewrite drop_all.
        - rewrite Nat.min_l by lia. apply tl_drop. }
      exists (Nat.min (S k) (length (weights lines))). split; [lia|].
      destruct (is_discount name); exact Htl.
Qed.

(** C4: the pending weight-price values leave the queue first in, first
    out.  A weight-price line joins the queue at its end and a product line
    takes the value at its front; what is pending is an end piece of the
    weight-price strings read so far; the first weight-price line of a document goes to the first
    product line matched after it, even when other weight-price lines stand
    between the two; and a weight-price line that no matched product line
    follows adds no record and leaves every other record as it is. *)
Theorem pending_weight_price_is_fifo invoice_date :
  (forall out pending wl s,
      classify wl = WeightPrice s ->
      parse_line invoice_date (out, pending) wl = (out, pending ++ [s]))
  /\ (forall out w pending pl name qte_pu amount,
        classify pl = Product name qte_pu amount ->
        is_discount name = false ->
        parse_line invoice_date (out, w :: pending) pl
        = (out ++ [mkRow name [] w qte_pu amount (default [] invoice_date)],
           pending))
  /\ (forall lines, exists k,
        snd (run invoice_date ([], []) lines) = drop k (weights lines))
  /\ (forall pre wl s mid pl name qte_pu amount post,
        Forall (fun raw => ~ is_weight_price raw) pre ->
        classify wl = WeightPrice s ->
        Forall (fun raw => ~ is_product raw) mid ->
        classify pl = Product name qte_pu amount ->
        is_discount name = false ->
        exists later,
          parse_lines_to_rows (pre ++ wl :: mid ++ pl :: post) invoice_date
          = parse_lines_to_rows pre invoice_date
            ++ mkRow name [] s qte_pu amount (default [] invoice_date) :: later)
  /\ (forall pre wl post,
        is_weight_price wl ->
        Forall (fun raw => ~ is_product raw) post ->
        parse_lines_to_rows (pre ++ wl :: post) invoice_date
        = parse_lines_to_rows (pre ++ post) invoice_date).
Proof.
  split; [|split; [|split; [|split]]].
  - intros out pending wl s Hwl. now rewrite parse_line_classify, Hwl.
  - intros out w pending pl name qte_pu amount Hpl Hname.
    rewrite parse_line_classify, Hpl. cbn [apply_class fst snd hd tl].
    now rewrite Hname.
  - intros lines. destruct (pending_is_suffix invoice_date lines) as (k & _ & Hk).
    eauto.
  - intros pre wl s mid pl name qte_pu amount post Hpre Hwl Hmid Hpl Hname.
    rewrite !parse_lines_to_rows_run.
    assert (Hq : snd (run invoice_date ([], []) pre) = []).
    { destruct (pending_is_suffix invoice_date pre) as (k & _ & ->).
      assert (Hw : weights pre = []).
      { clear -Hpre. induction pre as [|raw pre IH]; [reflexivity|].
        inversion Hpre as [|? ? Hraw Hpre']; subst.
        rewrite weights_cons. destruct (classify raw) eqn:Hc; auto.
        exfalso. apply Hraw. unfold is_weight_price. eauto. }
      rewrite Hw. now destruct k. }
    destruct (run invoice_date ([], []) pre) as [out pending] eqn:Hrun.
    cbn [snd] in Hq. subst pending.
    rewrite run_app, Hrun, run_cons, Hwl. cbn [apply_class fst snd app].
    rewrite run_app, (run_no_product _ mid) by exact Hmid. cbn [fst snd app].
    rewrite run_cons, Hpl. cbn [apply_class fst snd hd tl]. rewrite Hname.
    destruct (run_out_grows invoice_date post
                (out ++ [mkRow name [] s qte_pu amount (default [] invoice_date)],
                 weights mid)) as [later ->].
    cbn [fst]. exists later. now rewrite <- app_assoc.
  - intros pre wl post [s Hwl] Hpost.
    rewrite !parse_lines_to_rows_run, !run_app, run_cons, Hwl.
    rewrite (run_no_product _ post (apply_class _ _ _)) by exact Hpost.
    rewrite (run_no_product _ post (run _ _ pre)) by exact Hpost.
    reflexivity.
Qed.

(** ** The date of a document *)

Lemma find_date_slash all_text rest m :
  re_search DATE_RE_SLASH all_text = Some (rest, m) ->
  find_date all_text = date_of_match m.
Proof. intros Hs. unfold find_date, DATE_RES. cbn [find_date_in]. now rewrite Hs. Qed.

Lemma find_date_dot all_text rest m :
  re_search DATE_RE_SLASH all_text = None ->
  re_search DATE_RE_DOT all_text = Some (rest, m) ->
  find_date all_text = date_of_match m.
Proof.
  intros Hs Hd. unfold find_date, DATE_RES. cbn [find_date_in]. now rewrite Hs, Hd.
Qed.

Lemma find_date_none all_text :
  Forall (fun rx => re_search rx all_text = None) DATE_RES ->
  find_date all_text = Ok None.
Proof.
  unfold find_date. induction 1 as [|rx res Hrx _ IH]; [reflexivity|].
  cbn [find_date_in]. now rewrite Hrx.
Qed.

(** C6: the patterns are tried in the order of [DATE_RES] and the first
    one with a match anywhere in the text decides the date, wherever the
    other one matches; a year below 100 is raised by 2000.  A text whose
    dotted date reads "12.05.24 14:32", and that has no slash date, gives
    "12/05/2024". *)
Theorem date_patterns_by_priority all_text :
  DATE_RES = [DATE_RE_SLASH; DATE_RE_DOT]
  /\ (forall rest m,
        re_search DATE_RE_SLASH all_text = Some (rest, m) ->
        find_date all_text = date_of_match m)
  /\ (forall rest m,
        re_search DATE_RE_SLASH all_text = None ->
        re_search DATE_RE_DOT all_text = Some (rest, m) ->
        find_date all_text = date_of_match m)
  /\ (forall m,
        date_of_match m =
        (dt <- new_datetime
                 (if int (group "y" m) <? 100 then int (group "y" m) + 2000
                  else int (group "y" m))
                 (int (group "m" m)) (int (group "d" m))
                 (int (group "h" m)) (int (group "min" m)) ;;
         Ok (Some (strftime_dmY dt))))
  /\ (forall rest m,
        re_search DATE_RE_SLASH all_text = None ->
        re_search DATE_RE_DOT all_text = Some (rest, m) ->
        group "d" m = u "12" -> group "m" m = u "05" -> group "y" m = u "24" ->
        group "h" m = u "14" -> group "min" m = u "32" ->
        find_date all_text = Ok (Some (u "12/05/2024"))).
Proof.
  split; [reflexivity|].
  split; [apply find_date_slash|].
  split; [apply find_date_dot|].
  split; [reflexivity|].
  intros rest m Hs Hd Gd Gm Gy Gh Gmin.
  rewrite (find_date_dot _ _ _ Hs Hd). unfold date_of_match.
  rewrite Gd, Gm, Gy, Gh, Gmin. vm_compute. reflexivity.
Qed.

(** The rows of a document all carry the date handed to the loop. *)
Lemma run_dates invoice_date lines : forall st,
  Forall (fun r => row_date r = default [] invoice_date) (fst st) ->
  Forall (fun r => row_date r = default [] invoice_date)
    (fst (run invoice_date st lines)).
Proof.
  induction lines as [|raw lines IH]; intros st Hst; [exact Hst|].
  rewrite run_cons. apply IH.
  destruct (classify raw); cbn [apply_class]; try exact Hst.
  destruct (is_discount name); cbn [fst]; [exact Hst|].
  apply Forall_app. split; [exact Hst|]. repeat constructor.
Qed.

Lemma parse_lines_to_rows_dates lines invoice_date :
  Forall (fun r => row_date r = default [] invoice_date)
    (parse_lines_to_rows lines invoice_date).
Proof. rewrite parse_lines_to_rows_run. apply run_dates. constructor. Qed.

(** C9: when no date pattern matches anywhere in the text of a document,
    the date is the empty state and not a failure, the document is
    processed, and every record of it has an empty date. *)
Theorem no_date_match_gives_empty_date pages :
  Forall (fun rx => re_search rx (all_text_of pages) = None) DATE_RES ->
  find_date (all_text_of pages) = Ok None
  /\ extract_pdf_to_rows pages
     = Ok (parse_lines_to_rows (split_on 10 (all_text_of pages)) None)
  /\ Forall (fun r => row_date r = [])
       (parse_lines_to_rows (split_on 10 (all_text_of pages)) None).
Proof.
  intros Hno. pose proof (find_date_none _ Hno) as Hd.
  split; [exact Hd|]. split.
  - unfold extract_pdf_to_rows. now rewrite Hd.
  - apply (parse_lines_to_rows_dates _ None).
Qed.

Lemma collect_rows_app docs1 docs2 :
  collect_rows (docs1 ++ docs2) = collect_rows docs1 ++ collect_rows docs2.
Proof.
  induction docs1 as [|p docs1 IH]; [reflexivity|].
  cbn [app collect_rows]. destruct (extract_pdf_to_rows p); [|exact IH].
  now rewrite IH, app_assoc.
Qed.

(** A day beyond 31 is never a calendar date. *)
Lemma day_out_of_range m :
  31 < int (group "d" m) -> date_of_match m = Raise ValueError.
Proof.
  intros Hd. unfold date_of_match, new_datetime.
  set (y := if int (group "y" m) <? 100 then _ else _).
  set (mth := int (group "m" m)).
  assert (Hf : between 1 (days_in_month y mth) (int (group "d" m)) = false).
  { unfold between. apply andb_false_iff. right. apply N.leb_gt.
    unfold days_in_month.
    destruct (mth =? 2); [destruct (is_leap y); lia|].
    destruct ((mth =? 4) || (mth =? 6) || (mth =? 9) || (mth =? 11)); lia. }
  rewrite Hf. now rewrite !andb_false_r.
Qed.

(** C2 (as amended): when the match that decides the date of a document
    (the leftmost match of the first pattern that matches) is not a
    calendar date, [find_date] raises [ValueError], and the failure leaves
    [extract_pdf_to_rows] as it is: the lines of the document are not
    processed and the document gives no record; the batch goes on and
    writes what it would have written without that document. *)
Theorem invalid_date_fails_the_document pages rest m before after :
  re_search DATE_RE_SLASH (all_text_of pages) = Some (rest, m)
  \/ (re_search DATE_RE_SLASH (all_text_of pages) = None
      /\ re_search DATE_RE_DOT (all_text_of pages) = Some (rest, m)) ->
  date_of_match m = Raise ValueError ->
  find_date (all_text_of pages) = Raise ValueError
  /\ extract_pdf_to_rows pages = Raise ValueError
  /\ extract_invoices_to_csv (before ++ pages :: after)
     = extract_invoices_to_csv (before ++ after).
Proof.
  intros Hmatch Hbad.
  assert (Hd : find_date (all_text_of pages) = Raise ValueError).
  { destruct Hmatch as [Hs|[Hs Hdot]].
    - now rewrite (find_date_slash _ _ _ Hs).
    - now rewrite (find_date_dot _ _ _ Hs Hdot). }
  assert (He : extract_pdf_to_rows pages = Raise ValueError).
  { unfold extract_pdf_to_rows. now rewrite Hd. }
  split; [exact Hd|]. split; [exact He|].
  unfold extract_invoices_to_csv. f_equal.
  rewrite !collect_rows_app. cbn [collect_rows]. now rewrite He.
Qed.

End InvoiceParserProperties.

Section MergeCsvProperties.

Lemma merge_files_app st ps1 ps2 :
  merge_files st (ps1 ++ ps2) = (st' <- merge_files st ps1 ;; merge_files st' ps2).
Proof.
  revert st. induction ps1 as [|p ps1 IH]; intros st; [reflexivity|].
  cbn [app merge_files]. destruct (merge_file st p) as [st'|e]; [apply IH | reflexivity].
Qed.

(** A file without a header leaves the state of the loop as it is. *)
Lemma merge_file_headerless st rows :
  merge_file st (Ok (mkCsv [] rows)) = Ok st.
Proof. destruct st. reflexivity. Qed.

Lemma header_after_nil first_header : header_after first_header [] = first_header.
Proof. unfold header_after. cbn. case_bool_decide; congruence. Qed.

Lemma header_after_cons first_header f files :
  header_after first_header (f :: files) =
  header_after (if bool_decide (csv_header f = []) then first_header
                else if bool_decide (first_header = []) then csv_header f
                else first_header) files.
Proof.
  unfold header_after. cbn [first_header_of].
  repeat case_bool_decide; congruence.
Qed.

(** Files that were all read either end in a schema mismatch or leave the
    header of the first of them that has one. *)
Lemma merge_files_read files : forall st,
  merge_files st (map Ok files) = Raise ValueError
  \/ exists rows,
       merge_files st (map Ok files) = Ok (header_after (fst st) files, rows).
Proof.
  induction files as [|f files IH]; intros [fh rows].
  - right. exists rows. cbn [fst]. now rewrite header_after_nil.
  - cbn [map merge_files]. rewrite header_after_cons. cbn [fst].
    unfold merge_file. cbn [bind].
    case_bool_decide as Hh; cbn [bind].
    + apply (IH (fh, rows)).
    + case_bool_decide as Hf; cbn [bind].
      * apply (IH (csv_header f, _)).
      * destruct (columns_differ (csv_header f) fh); cbn [bind]; [now left|].
        apply (IH (fh, _)).
Qed.

(** Without a mismatch the loop ends well. *)
Lemma merge_files_agree files : forall st,
  Forall (fun f => csv_header f = [] \/
                   columns_differ (csv_header f) (header_after (fst st) files) = false)
    files ->
  exists rows, merge_files st (map Ok files) = Ok (header_after (fst st) files, rows).
Proof.
  induction files as [|f files IH]; intros [fh rows] Hall.
  - exists rows. cbn [fst]. now rewrite header_after_nil.
  - inversion Hall as [|? ? Hf Hall']; subst. cbn [fst] in *.
    cbn [map merge_files]. rewrite header_after_cons in *.
    unfold merge_file. cbn [bind].
    case_bool_decide as Hh; cbn [bind].
    + apply (IH (fh, rows)). exact Hall'.
    + case_bool_decide as Hfh; cbn [bind].
      * apply (IH (csv_header f, _)). exact Hall'.
      * destruct Hf as [Hf|Hf]; [contradiction|].
        assert (Hfix : header_after fh files = fh).
        { unfold header_after. now case_bool_decide. }
        rewrite Hfix in Hf. rewrite Hf. cbn [bind].
        apply (IH (fh, _)). exact Hall'.
Qed.

(** C8 (as amended): [merge_csv_folder] fails with [ValueError], the
    schema mismatch, when a file that has a header follows files that were
    read and its set of column names differs from that of the first file
    with a header; and, when the files agree, with [KeyError], the missing
    column, when the non-empty sort column asked for is not in that first
    header.  In both cases the caller gets the error and nothing is
    written.  Files without a header take no part in the comparison. *)
Theorem schema_mismatch_and_missing_column a d :
  folder_is_dir a = true ->
  (forall pre f post,
      paths a = map Ok pre ++ Ok f :: post ->
      csv_header f <> [] ->
      first_header_of pre <> [] ->
      columns_differ (csv_header f) (first_header_of pre) = true ->
      merge_csv_folder a d = (Raise ValueError, d))
  /\ (forall files col,
        paths a = map Ok files ->
        files <> [] ->
        Forall (fun f => csv_header f = [] \/
                  columns_differ (csv_header f) (first_header_of files) = false)
          files ->
        truthy (sort_by a) = Some col ->
        col ∉ first_header_of files ->
        merge_csv_folder a d = (Raise KeyError, d)).
Proof.
  destruct a as [dir ps out dd sb].
  cbn [folder_is_dir paths output_csv dedupe sort_by].
  intros ->. split.
  - intros pre f post -> Hf Hpre Hdiff.
    unfold merge_csv_folder.
    cbn [folder_is_dir paths output_csv dedupe sort_by negb].
    case_bool_decide as Hnil.
    { destruct pre; discriminate. }
    rewrite merge_files_app.
    destruct (merge_files_read pre ([], [])) as [->|[rows ->]]; [reflexivity|].
    cbn [bind merge_files fst]. unfold header_after.
    rewrite bool_decide_eq_true_2 by reflexivity.
    unfold merge_file. cbn [bind].
    rewrite bool_decide_eq_false_2 by exact Hf.
    rewrite bool_decide_eq_false_2 by exact Hpre.
    now rewrite Hdiff.
  - intros files col -> Hne Hall Hsort Hcol.
    unfold merge_csv_folder.
    cbn [folder_is_dir paths output_csv dedupe sort_by negb].
    case_bool_decide as Hnil.
    { destruct files; [contradiction | discriminate]. }
    destruct (merge_files_agree files ([], [])) as [rows ->].
    { cbn [fst]. unfold header_after.
      now rewrite bool_decide_eq_true_2 by reflexivity. }
    cbn [bind fst]. unfold header_after.
    rewrite bool_decide_eq_true_2 by reflexivity.
    rewrite Hsort. now rewrite bool_decide_eq_false_2 by exact Hcol.
Qed.

(** C10: a file read with an empty header is passed over: the loop state
    is the one before it, so it brings no row, does not set the column
    order and raises no mismatch, and as long as another file matches the
    whole merge is the merge without it. *)
Theorem headerless_file_is_skipped rows :
  (forall st, merge_file st (Ok (mkCsv [] rows)) = Ok st)
  /\ (forall st pre post,
        merge_files st (pre ++ Ok (mkCsv [] rows) :: post)
        = merge_files st (pre ++ post))
  /\ (forall a d pre post,
        paths a = pre ++ Ok (mkCsv [] rows) :: post ->
        pre ++ post <> [] ->
        merge_csv_folder a d = merge_csv_folder (with_paths a (pre ++ post)) d).
Proof.
  assert (Hskip : forall st pre post,
             merge_files st (pre ++ Ok (mkCsv [] rows) :: post)
             = merge_files st (pre ++ post)).
  { intros st pre post. rewrite !merge_files_app.
    destruct (merge_files st pre) as [st'|e]; [|reflexivity].
    cbn [bind merge_files]. now rewrite merge_file_headerless. }
  split; [intros st; apply merge_file_headerless|].
  split; [exact Hskip|].
  intros [dir ps out dd sb] d pre post Hpaths Hne.
  cbn [paths] in Hpaths. subst ps.
  unfold merge_csv_folder, with_paths.
  cbn [folder_is_dir paths output_csv dedupe sort_by].
  rewrite Hskip.
  destruct (negb dir); [reflexivity|].
  rewrite (bool_decide_eq_false_2 (pre ++ post = [])) by exact Hne.
  rewrite bool_decide_eq_false_2; [reflexivity|].
  now destruct pre.
Qed.

End MergeCsvProperties.

(** * The properties on concrete receipts and folders *)

Section Examples.

#[local] Existing Instance receipt_tables.

(** C1, as the specification words it, fails: the weight is emitted as
    "0.350", not as "0.35". *)
Lemma chistorra_weight_keeps_its_digits :
  ~ exists r,
      parse_lines_to_rows
        [u "0.350 kg x 12,50 €/kg"; u "5% CHISTORRA REFLETS 1 x 4.70 4.70"] None
      = [r]
      /\ row_price_kg r = u "0.35kg x 12.50€/kg"
      /\ row_name r = u "CHISTORRA REFLETS"
      /\ row_qte_pu r = u "1 x 4.70"
      /\ row_amount r = u "4.70".
Proof.
  intros (r & Hr & Hp & _). vm_compute in Hr.
  injection Hr as <-. vm_compute in Hp. discriminate.
Qed.

(** C2, as the specification words it, fails: of a document with an
    out-of-range date and a product line, whose lines alone would give a
    record, nothing is kept. *)
Lemma invalid_date_loses_the_product_lines :
  let pages := [Some (join [10] [u "32/01/2024 10:00"; u "PAIN 1 x 1.00 1.00"])] in
  find_date (all_text_of pages) = Raise ValueError
  /\ parse_lines_to_rows (split_on 10 (all_text_of pages)) None
     = [mkRow (u "PAIN") [] [] (u "1 x 1.00") (u "1.00") []]
  /\ extract_pdf_to_rows pages = Raise ValueError
  /\ snd (extract_invoices_to_csv [pages]) = [].
Proof. vm_compute. repeat split. Qed.

Lemma invalid_date_fails_the_document_witness :
  let doc := [Some (u "PAIN 1 x 1.00 1.00")] in
  let pages := [Some (join [10] [u "32/01/2024 10:00"; u "PAIN 1 x 1.00 1.00"])] in
  find_date (all_text_of pages) = Raise ValueError
  /\ extract_pdf_to_rows pages = Raise ValueError
  /\ extract_invoices_to_csv ([doc] ++ pages :: [doc])
     = extract_invoices_to_csv ([doc] ++ [doc]).
Proof.
  intros doc pages.
  apply (invalid_date_fails_the_document pages
           (10 :: u "PAIN 1 x 1.00 1.00")
           [("min"%string, u "00"); ("h"%string, u "10"); ("y"%string, u "2024");
            ("m"%string, u "01"); ("d"%string, u "32")]).
  - left. vm_compute. reflexivity.
  - apply day_out_of_range. vm_compute. reflexivity.
Defined.



Lemma pending_weight_price_is_fifo_witness :
  exists later,
    parse_lines_to_rows
      ([u "PAIN 1 x 1.00 1.00"]
       ++ u "0.350 kg x 12,50 €/kg"
       :: [u "1.2 kg x 3,00 €/kg"; u "Merci de votre visite"]
       ++ u "POMMES 1 x 3.60 3.60" :: [u "POIRES 1 x 2.00 2.00"]) None
    = parse_lines_to_rows [u "PAIN 1 x 1.00 1.00"] None
      ++ mkRow (u "POMMES") [] (u "0.350kg x 12.50€/kg") (u "1 x 3.60") (u "3.60") []
      :: later.
Proof.
  apply (proj1 (proj2 (proj2 (proj2 (pending_weight_price_is_fifo None))))).
  - repeat constructor. intros [s Hs]. vm_compute in Hs. discriminate.
  - vm_compute. reflexivity.
  - repeat constructor; intros (n & q & a & Hc); vm_compute in Hc; discriminate.
  - vm_compute. reflexivity.
  - vm_compute. reflexivity.
Defined.

(** C5, as the specification words it, fails: a line with a noise prefix
    can match the product pattern, with a name that begins with "remise",
    and it is passed over before the queue is touched. *)
Lemma noise_prefixed_line_dequeues_nothing :
  let raw := u "Remise immédiate 1 x 1.00 -1.00" in
  let w := u "0.350kg x 12.50€/kg" in
  option_map (fun r => clean_name (snd r)) (re_match PRODUCT_RE (strip raw))
  = Some (u "Remise immédiate")
  /\ is_discount (u "Remise immédiate") = true
  /\ classify raw = Noise
  /\ parse_line None ([], [w]) raw = ([], [w])
  /\ parse_lines_to_rows [u "0.350 kg x 12,50 €/kg"; raw; u "CHISTORRA 1 x 4.38 4.38"] None
     = [mkRow (u "CHISTORRA") [] w (u "1 x 4.38") (u "4.38") []].
Proof. vm_compute. repeat split. Qed.

Lemma product_line_dequeues_even_when_discount_witness :
  let raw := u "REMISE 2EME PRODUIT 1 x 0.50 -0.50" in
  let w := u "0.350kg x 12.50€/kg" in
  snd (parse_line None ([], [w; u "1.2kg x 3.00€/kg"]) raw) = [u "1.2kg x 3.00€/kg"]
  /\ snd (parse_line None ([], []) raw) = []
  /\ (is_discount (u "REMISE 2EME PRODUIT") = true ->
      parse_line None ([], [w; u "1.2kg x 3.00€/kg"]) raw = ([], [u "1.2kg x 3.00€/kg"])
      /\ forall w' rest,
           run None ([], [w; u "1.2kg x 3.00€/kg"]) (raw :: rest)
           = run None ([], [w'; u "1.2kg x 3.00€/kg"]) (raw :: rest)).
Proof.
  intros raw w.
  apply (product_line_dequeues_even_when_discount None [] w [u "1.2kg x 3.00€/kg"]
           raw (u "REMISE 2EME PRODUIT") (u "1 x 0.50") (u "-0.50")).
  vm_compute. reflexivity.
Defined.

Lemma date_patterns_by_priority_witness :
  find_date (u "CARREFOUR CITY 12.05.24 14:32 CAISSE 3") = Ok (Some (u "12/05/2024"))
  /\ find_date (u "12.05.24 14:32 puis 13/06/2025 à 9h05") = Ok (Some (u "13/06/2025")).
Proof.
  split.
  - apply (proj2 (proj2 (proj2 (proj2
             (date_patterns_by_priority (u "CARREFOUR CITY 12.05.24 14:32 CAISSE 3")))))
             (u " CAISSE 3")
             [("min"%string, u "32"); ("h"%string, u "14"); ("y"%string, u "24");
              ("m"%string, u "05"); ("d"%string, u "12")]);
      vm_compute; reflexivity.
  - rewrite (proj1 (proj2 (date_patterns_by_priority
                              (u "12.05.24 14:32 puis 13/06/2025 à 9h05")))
               (u "")
               [("min"%string, u "05"); ("h"%string, u "9"); ("y"%string, u "2025");
                ("m"%string, u "06"); ("d"%string, u "13")]);
      vm_compute; reflexivity.
Defined.

Lemma classification_total_in_precedence_order_witness :
  let raw := u "Total 1 x 2.00 2.00" in
  matches_product raw /\ has_noise_prefix raw
  /\ ~ is_product raw
  /\ fst (parse_line None ([], [u "0.350kg x 12.50€/kg"]) raw) = [].
Proof.
  intros raw.
  assert (Hn : has_noise_prefix raw).
  { apply noise_prefix_spec. vm_compute. reflexivity. }
  split; [vm_compute; eauto|]. split; [exact Hn|].
  apply (proj2 (proj2 (proj2 (proj2 (proj2 (proj2 (proj2 (proj2
           (classification_total_in_precedence_order None
              ([], [u "0.350kg x 12.50€/kg"]) raw))))))))).
  exact Hn.
Defined.

Lemma no_date_match_gives_empty_date_witness :
  let pages := [Some (join [10] [u "CARREFOUR"; u "PAIN 1 x 1.00 1.00"]); None] in
  find_date (all_text_of pages) = Ok None
  /\ extract_pdf_to_rows pages
     = Ok (parse_lines_to_rows (split_on 10 (all_text_of pages)) None)
  /\ Forall (fun r => row_date r = [])
       (parse_lines_to_rows (split_on 10 (all_text_of pages)) None).
Proof.
  intros pages. apply (no_date_match_gives_empty_date pages).
  repeat constructor; vm_compute; reflexivity.
Defined.

(** C8, as the specification words it, fails: the second file has no
    column at all, which is not the column set of the first, and the merge
    succeeds. *)
Lemma differing_headerless_file_is_no_mismatch :
  let first := mkCsv [u "name"] [{[ u "name" := Some (u "PAIN") ]}] in
  let a := mkArgs true [Ok first; Ok (mkCsv [] [])] (u "merged.csv") false None in
  columns_differ [] (csv_header first) = true
  /\ merge_csv_folder a []
     = (Ok (u "merged.csv"), [(u "merged.csv", ([u "name"], [[Some (u "PAIN")]]))]).
Proof. vm_compute. split; reflexivity. Qed.

Lemma schema_mismatch_and_missing_column_witness :
  let f1 := mkCsv [u "name"; u "date"] [] in
  let f2 := mkCsv [u "name"; u "amount"] [] in
  let f3 := mkCsv [u "date"; u "name"] [] in
  let d := [(u "old.csv", ([u "name"], []))] in
  merge_csv_folder (mkArgs true [Ok f1; Ok f2] (u "merged.csv") false None) d
  = (Raise ValueError, d)
  /\ merge_csv_folder
       (mkArgs true [Ok f1; Ok f3] (u "merged.csv") false (Some (u "amount"))) d
     = (Raise KeyError, d).
Proof.
  intros f1 f2 f3 d. split.
  - apply (proj1 (schema_mismatch_and_missing_column
                    (mkArgs true [Ok f1; Ok f2] (u "merged.csv") false None) d
                    eq_refl) [f1] f2 []).
    + reflexivity.
    + vm_compute. discriminate.
    + vm_compute. discriminate.
    + vm_compute. reflexivity.
  - apply (proj2 (schema_mismatch_and_missing_column
                    (mkArgs true [Ok f1; Ok f3] (u "merged.csv") false
                       (Some (u "amount"))) d
                    eq_refl) [f1; f3] (u "amount")).
    + reflexivity.
    + discriminate.
    + repeat constructor; right; vm_compute; reflexivity.
    + vm_compute. reflexivity.
    + vm_compute. intros Hin. apply list_elem_of_In in Hin.
      cbn in Hin. intuition discriminate.
Defined.

Lemma headerless_file_is_skipped_witness :
  let f1 := mkCsv [u "name"] [{[ u "name" := Some (u "PAIN") ]}] in
  let f2 := mkCsv [u "name"] [{[ u "name" := Some (u "POMMES") ]}] in
  let junk := [{[ u "x" := Some (u "1") ]}] in
  let a := mkArgs true [Ok f1; Ok (mkCsv [] junk); Ok f2] (u "merged.csv") true None in
  merge_csv_folder a [] = merge_csv_folder (with_paths a ([Ok f1] ++ [Ok f2])) [].
Proof.
  intros f1 f2 junk a.
  apply (proj2 (proj2 (headerless_file_is_skipped junk)) a [] [Ok f1] [Ok f2]).
  - reflexivity.
  - discriminate.
Defined.

End Examples.

(** * Further properties of the invoice parser *)

Section InvoiceParserInvariants.

Context `{UnicodeData}.

(** ** Decimal normalisation *)

Lemma normalize_decimal_cons c s :
  normalize_decimal (c :: s) = (if c =? 44 then 46 else c) :: normalize_decimal s.
Proof.
  unfold normalize_decimal, replace_char. cbn [flat_map].
  change (lit ",") with 44. change (u ".") with [46].
  destruct (c =? 44); reflexivity.
Qed.

Lemma normalize_decimal_no_comma s : 44 ∉ normalize_decimal s.
Proof.
  induction s as [|c s IH]; [apply not_elem_of_nil|].
  rewrite normalize_decimal_cons. apply not_elem_of_cons. split; [|exact IH].
  destruct (c =? 44) eqn:Hc; [discriminate|]. apply N.eqb_neq in Hc. congruence.
Qed.

Lemma normalize_decimal_fixed s : 44 ∉ s -> normalize_decimal s = s.
Proof.
  induction s as [|c s IH]; intros Hs; [reflexivity|].
  apply not_elem_of_cons in Hs as [Hc Hs].
  rewrite normalize_decimal_cons, IH by exact Hs.
  destruct (c =? 44) eqn:Hc'; [|reflexivity].
  apply N.eqb_eq in Hc'. congruence.
Qed.

Lemma normalize_decimal_map s :
  normalize_decimal s = map (fun c => if c =? 44 then 46 else c) s.
Proof.
  induction s as [|c s IH]; [reflexivity|].
  rewrite normalize_decimal_cons, IH. reflexivity.
Qed.

(** X1: [normalize_decimal] turns every comma into a point and touches
    nothing else: character by character, the result has a point where the
    input has a comma and the character of the input everywhere else.
    Hence the result has no comma and the length of the input, a string
    without a comma is returned as it is, and normalising twice is
    normalising once. *)
Theorem normalize_decimal_canonical s :
  normalize_decimal s = map (fun c => if c =? lit "," then lit "." else c) s
  /\ (lit "," ∉ normalize_decimal s)
  /\ length (normalize_decimal s) = length s
  /\ (lit "," ∉ s -> normalize_decimal s = s)
  /\ normalize_decimal (normalize_decimal s) = normalize_decimal s.
Proof.
  change (lit ",") with 44. change (lit ".") with 46.
  split; [apply normalize_decimal_map|].
  split; [apply normalize_decimal_no_comma|].
  split; [|split; [apply normalize_decimal_fixed|
                   apply normalize_decimal_fixed, normalize_decimal_no_comma]].
  induction s as [|c s IH]; [reflexivity|].
  rewrite normalize_decimal_cons. cbn [length]. now rewrite IH.
Qed.

(** ** Surrounding white space *)

Lemma lstrip_no_leading_space s : no_leading_space (lstrip s).
Proof.
  induction s as [|c s IH]; [exact I|].
  cbn [lstrip]. destruct (is_space c) eqn:Hc; [exact IH | exact Hc].
Qed.

Lemma lstrip_fixed s : no_leading_space s -> lstrip s = s.
Proof. destruct s as [|c s]; [reflexivity|]. cbn. now intros ->. Qed.

Lemma lstrip_suffix s : exists w, s = w ++ lstrip s.
Proof.
  induction s as [|c s [w IH]]; [now exists []|].
  cbn [lstrip]. destruct (is_space c).
  - exists (c :: w). cbn. now rewrite <- IH.
  - now exists [].
Qed.

Lemma rstrip_prefix s : exists w, s = rstrip s ++ w.
Proof.
  destruct (lstrip_suffix (rev s)) as [w Hw]. exists (rev w).
  unfold rstrip. rewrite <- rev_app_distr, <- Hw. now rewrite rev_involutive.
Qed.

Lemma rstrip_rstrip s : rstrip (rstrip s) = rstrip s.
Proof.
  unfold rstrip. rewrite rev_involutive.
  now rewrite (lstrip_fixed _ (lstrip_no_leading_space _)).
Qed.

Lemma rstrip_no_leading_space s : no_leading_space s -> no_leading_space (rstrip s).
Proof.
  intros Hs. destruct (rstrip_prefix s) as [w Hw].
  destruct (rstrip s) as [|c r]; [exact I|].
  rewrite Hw in Hs. exact Hs.
Qed.

Lemma strip_strip s : strip (strip s) = strip s.
Proof.
  unfold strip.
  rewrite (lstrip_fixed (rstrip (lstrip s))).
  - apply rstrip_rstrip.
  - apply rstrip_no_leading_space, lstrip_no_leading_space.
Qed.

(** X2: the white space around a line plays no part: a line and the line
    stripped are classified alike, so a document gives the same rows once
    each of its lines is stripped; and stripping twice is stripping once.
    What [strip] returns neither begins nor ends with a space. *)
Theorem surrounding_space_is_ignored lines invoice_date :
  (forall s, strip (strip s) = strip s)
  /\ (forall s, no_leading_space (strip s) /\ no_leading_space (rev (strip s)))
  /\ (forall raw, classify (strip raw) = classify raw)
  /\ parse_lines_to_rows (map strip lines) invoice_date
     = parse_lines_to_rows lines invoice_date.
Proof.
  assert (Hc : forall raw, classify (strip raw) = classify raw).
  { intros raw. unfold classify. now rewrite strip_strip. }
  split; [apply strip_strip|]. split; [|split; [exact Hc|]].
  - intros s. split.
    + apply rstrip_no_leading_space, lstrip_no_leading_space.
    + unfold strip, rstrip. rewrite rev_involutive. apply lstrip_no_leading_space.
  - rewrite !parse_lines_to_rows_run. generalize (@nil row, @nil str).
    induction lines as [|raw lines IH]; intros st; [reflexivity|].
    cbn [map]. rewrite !run_cons, Hc. apply IH.
Qed.

(** ** Lines that carry nothing *)

(** X3: blank lines, noise lines and unrecognised lines can be taken out
    of a document, or put into it, without changing its rows: only the
    weight-price lines and the product lines count, in their order. *)
Theorem only_data_lines_count lines invoice_date :
  parse_lines_to_rows (List.filter carries_data lines) invoice_date
  = parse_lines_to_rows lines invoice_date.
Proof.
  rewrite !parse_lines_to_rows_run. generalize (@nil row, @nil str).
  induction lines as [|raw lines IH]; intros st; [reflexivity|].
  cbn [List.filter]. destruct (carries_data raw) eqn:Hd.
  - rewrite !run_cons. apply IH.
  - rewrite run_cons, IH. f_equal.
    unfold carries_data in Hd. destruct (classify raw); try discriminate;
      destruct st; reflexivity.
Qed.

(** ** The date and the type of the rows *)

Lemma apply_class_with_date invoice_date c out pending :
  apply_class invoice_date c (map (with_date (default [] invoice_date)) out, pending)
  = (map (with_date (default [] invoice_date)) (fst (apply_class None c (out, pending))),
     snd (apply_class None c (out, pending))).
Proof.
  destruct c; try reflexivity. cbn [apply_class fst snd].
  destruct (is_discount name); [reflexivity|].
  cbn [fst snd]. now rewrite map_app.
Qed.

Lemma run_with_date invoice_date lines : forall out pending,
  run invoice_date (map (with_date (default [] invoice_date)) out, pending) lines
  = (map (with_date (default [] invoice_date)) (fst (run None (out, pending) lines)),
     snd (run None (out, pending) lines)).
Proof.
  induction lines as [|raw lines IH]; intros out pending; [reflexivity|].
  rewrite !run_cons, apply_class_with_date.
  destruct (apply_class None (classify raw) (out, pending)) as [out' pending'].
  apply IH.
Qed.

Lemma run_types invoice_date lines : forall st,
  Forall (fun r => row_type r = []) (fst st) ->
  Forall (fun r => row_type r = []) (fst (run invoice_date st lines)).
Proof.
  induction lines as [|raw lines IH]; intros st Hst; [exact Hst|].
  rewrite run_cons. apply IH.
  destruct (classify raw); cbn [apply_class]; try exact Hst.
  destruct (is_discount name); cbn [fst]; [exact Hst|].
  apply Forall_app. split; [exact Hst|]. repeat constructor.
Qed.

(** X4: the date takes no part in the reading of the lines: the rows of a
    document under a date are its rows under no date with the date written
    into each; and the type field of every row is empty. *)
Theorem date_only_stamps_the_rows lines invoice_date :
  parse_lines_to_rows lines invoice_date
  = map (with_date (default [] invoice_date)) (parse_lines_to_rows lines None)
  /\ Forall (fun r => row_type r = []) (parse_lines_to_rows lines invoice_date).
Proof.
  split.
  - rewrite !parse_lines_to_rows_run.
    pose proof (run_with_date invoice_date lines [] []) as Hr.
    cbn [map] in Hr. now rewrite Hr.
  - rewrite parse_lines_to_rows_run. apply run_types. constructor.
Qed.

(** ** What the rows hold *)

Lemma classify_weight_price_inv raw s :
  classify raw = WeightPrice s -> exists m, s = display_weight_price m.
Proof.
  unfold classify. case_bool_decide; [discriminate|].
  destruct (re_match PRICE_KG_RE _) as [[rest m]|].
  - intros [= <-]. eauto.
  - destruct (existsb _ _); [discriminate|].
    destruct (re_match PRODUCT_RE _) as [[? ?]|]; discriminate.
Qed.

Lemma classify_product_inv raw name qte_pu amount :
  classify raw = Product name qte_pu amount ->
  exists m, amount = normalize_decimal (group "amount" m).
Proof.
  unfold classify. case_bool_decide; [discriminate|].
  destruct (re_match PRICE_KG_RE _) as [[rest m]|]; [discriminate|].
  destruct (existsb _ _); [discriminate|].
  destruct (re_match PRODUCT_RE _) as [[rest m]|]; [|discriminate].
  intros [= _ _ <-]. eauto.
Qed.

Lemma display_weight_price_no_comma m : 44 ∉ display_weight_price m.
Proof.
  unfold display_weight_price.
  change (u "kg x ") with [107; 103; 32; 120; 32].
  change (u "€/kg") with [8364; 47; 107; 103].
  rewrite !elem_of_app, !elem_of_cons, elem_of_nil.
  pose proof (normalize_decimal_no_comma (group "weight" m)).
  pose proof (normalize_decimal_no_comma (group "price" m)).
  intuition discriminate.
Qed.

Lemma run_no_comma invoice_date lines : forall st,
  Forall (fun r => (44 ∉ row_amount r) /\ (44 ∉ row_price_kg r)) (fst st) ->
  Forall (fun s => 44 ∉ s) (snd st) ->
  Forall (fun r => (44 ∉ row_amount r) /\ (44 ∉ row_price_kg r))
    (fst (run invoice_date st lines)).
Proof.
  induction lines as [|raw lines IH]; intros [out pending] Hout Hpend; [exact Hout|].
  cbn [fst snd] in *. rewrite run_cons.
  destruct (classify raw) eqn:Hc; cbn [apply_class fst snd];
    try (apply IH; assumption).
  - apply IH; [exact Hout|]. cbn [snd]. apply Forall_app. split; [exact Hpend|].
    destruct (classify_weight_price_inv _ _ Hc) as [m ->].
    repeat constructor. apply display_weight_price_no_comma.
  - assert (Htl : Forall (fun s => 44 ∉ s) (tl pending)).
    { destruct pending; [constructor|]. now inversion Hpend. }
    destruct (is_discount name); apply IH; cbn [fst snd]; try assumption.
    apply Forall_app. split; [exact Hout|].
    destruct (classify_product_inv _ _ _ _ Hc) as [m ->].
    repeat constructor; cbn [row_amount row_price_kg].
    + apply normalize_decimal_no_comma.
    + destruct pending; [apply not_elem_of_nil|]. now inversion Hpend.
Qed.

(** X5: no row keeps a decimal comma in its amount or in its weight-price
    field. *)
Theorem rows_have_no_decimal_comma lines invoice_date :
  Forall (fun r => (lit "," ∉ row_amount r) /\ (lit "," ∉ row_price_kg r))
    (parse_lines_to_rows lines invoice_date).
Proof.
  change (lit ",") with 44. rewrite parse_lines_to_rows_run.
  apply run_no_comma; constructor.
Qed.

Lemma run_counts invoice_date lines : forall st,
  (length (fst (run invoice_date st lines)) <= length (fst st) + length lines)%nat
  /\ (length (filter (fun r => row_price_kg r <> []) (fst (run invoice_date st lines)))
      + length (snd (run invoice_date st lines))
      <= length (filter (fun r => row_price_kg r <> []) (fst st))
         + length (snd st) + length (weights lines))%nat.
Proof.
  induction lines as [|raw lines IH]; intros [out pending].
  - cbn. lia.
  - rewrite run_cons, weights_cons.
    destruct (IH (apply_class invoice_date (classify raw) (out, pending))) as [IH1 IH2].
    destruct (classify raw) eqn:Hc; cbn [apply_class fst snd length] in *;
      try (split; lia).
    + rewrite length_app in IH2. cbn [length] in *. split; lia.
    + destruct (is_discount name); cbn [fst snd] in *.
      * destruct pending; cbn [tl length] in *; split; lia.
      * rewrite length_app in IH1. rewrite filter_app, length_app in IH2.
        cbn [length] in IH1.
        destruct pending as [|w pending]; cbn [hd tl length] in *.
        -- rewrite filter_cons_False in IH2 by (cbn; tauto).
           cbn [filter list_filter length] in IH2. split; lia.
        -- assert (Hle : (length (filter (fun r : row => row_price_kg r <> [])
                                   [mkRow name [] w qte_pu amount
                                      (default [] invoice_date)]) <= 1)%nat).
           { apply (length_filter (fun r : row => row_price_kg r <> []) [_]). }
           split; lia.
Qed.

(** X6: a document gives at most one row for each of its lines, and at
    most as many rows with a weight-price as it has weight-price lines. *)
Theorem rows_are_bounded_by_lines lines invoice_date :
  (length (parse_lines_to_rows lines invoice_date) <= length lines)%nat
  /\ (length (filter (fun r => row_price_kg r <> [])
                (parse_lines_to_rows lines invoice_date))
      <= length (weights lines))%nat.
Proof.
  rewrite parse_lines_to_rows_run.
  destruct (run_counts invoice_date lines ([], [])) as [H1 H2].
  cbn [fst snd length] in *. rewrite filter_nil in H2. cbn [length] in H2.
  split; lia.
Qed.

(** ** The date found *)

Lemma digit_char_range n : between 48 57 (digit_char n) = true.
Proof.
  unfold between, digit_char.
  assert (n mod 10 < 10) by (apply N.mod_upper_bound; discriminate).
  rewrite andb_true_iff, !N.leb_le.
  generalize dependent (n mod 10). intros r Hr. lia.
Qed.

Lemma days_in_month_le y m : days_in_month y m <= 31.
Proof.
  unfold days_in_month. destruct (m =? 2); [destruct (is_leap y); lia|].
  destruct ((m =? 4) || (m =? 6) || (m =? 9) || (m =? 11)); lia.
Qed.

Lemma date_of_match_ok m date :
  date_of_match m = Ok (Some date) ->
  exists d mth y,
    date = two_digits d ++ u "/" ++ two_digits mth ++ u "/" ++ year_digits y
    /\ 1 <= mth <= 12 /\ 1 <= d <= days_in_month y mth /\ 100 <= y <= 9999.
Proof.
  unfold date_of_match, new_datetime.
  set (y0 := int (group "y" m)).
  set (y := if y0 <? 100 then y0 + 2000 else y0).
  destruct (between 1 9999 y && _ && _ && _ && _) eqn:Hv; [|discriminate].
  cbn [bind]. intros [= <-].
  exists (int (group "d" m)), (int (group "m" m)), y.
  split; [reflexivity|].
  rewrite !andb_true_iff in Hv. unfold between in Hv.
  rewrite !andb_true_iff, !N.leb_le in Hv.
  assert (100 <= y).
  { subst y. destruct (y0 <? 100) eqn:Hy; [lia|]. now apply N.ltb_ge in Hy. }
  lia.
Qed.

Lemma date_of_match_not_none m : date_of_match m <> Ok None.
Proof.
  unfold date_of_match. destruct (new_datetime _ _ _ _ _); discriminate.
Qed.

Lemma date_of_match_raises m e : date_of_match m = Raise e -> e = ValueError.
Proof.
  unfold date_of_match, new_datetime.
  destruct (between _ _ _ && _ && _ && _ && _); cbn [bind]; congruence.
Qed.

Lemma find_date_cases all_text :
  (Forall (fun rx => re_search rx all_text = None) DATE_RES
   /\ find_date all_text = Ok None)
  \/ exists rx rest m,
       rx ∈ DATE_RES /\ re_search rx all_text = Some (rest, m)
       /\ find_date all_text = date_of_match m.
Proof.
  unfold find_date, DATE_RES. cbn [find_date_in].
  destruct (re_search DATE_RE_SLASH all_text) as [[rest m]|] eqn:Hs.
  { right. exists DATE_RE_SLASH, rest, m. repeat split; [left | exact Hs]. }
  destruct (re_search DATE_RE_DOT all_text) as [[rest m]|] eqn:Hd.
  { right. exists DATE_RE_DOT, rest, m. repeat split; [right; left | exact Hd]. }
  left. split; [|reflexivity]. repeat constructor; assumption.
Qed.

Lemma year_digits_from_100 y :
  100 <= y ->
  year_digits y
  = if y <? 1000 then [digit_char (y / 100); digit_char (y / 10); digit_char y]
    else four_digits y.
Proof.
  intros Hy. unfold year_digits.
  rewrite (proj2 (N.ltb_ge y 10)) by lia.
  now rewrite (proj2 (N.ltb_ge y 100)) by lia.
Qed.

(** X7: a date that [find_date] returns is always a day on two digits, a
    month on two digits and the year in decimal, with a stroke between
    them: digits but for the two strokes, naming a day that the month has,
    a month from 1 to 12 and a year from 100 to 9999, hence nine characters
    for a year below 1000 and ten, DD/MM/YYYY, from 1000 on. *)
Theorem find_date_gives_a_calendar_date all_text date :
  find_date all_text = Ok (Some date) ->
  exists d mth y,
    date = two_digits d ++ u "/" ++ two_digits mth ++ u "/" ++ year_digits y
    /\ 1 <= mth <= 12 /\ 1 <= d <= days_in_month y mth /\ d <= 31
    /\ 100 <= y <= 9999
    /\ length date = (if y <? 1000 then 9%nat else 10%nat)
    /\ Forall (fun c => c = lit "/" \/ between 48 57 c = true) date.
Proof.
  intros Hf.
  destruct (find_date_cases all_text) as [[_ Hn]|(rx & rest & m & _ & _ & Hm)];
    [congruence|].
  rewrite Hm in Hf. destruct (date_of_match_ok _ _ Hf) as (d & mth & y & -> & Hr).
  exists d, mth, y. pose proof (days_in_month_le y mth).
  split; [reflexivity|]. repeat (split; [lia|]).
  rewrite year_digits_from_100 by lia.
  change (u "/") with [47]. change (lit "/") with 47.
  unfold two_digits, four_digits.
  destruct (y <? 1000); cbn [app length]; (split; [reflexivity|]);
    rewrite !Forall_cons;
    repeat (split; [first [left; reflexivity | right; apply digit_char_range]|]);
    constructor.
Qed.

(** X8: [find_date] gives no date exactly when neither pattern matches
    anywhere in the text, and it fails only with [ValueError] and only when
    a pattern has matched. *)
Theorem find_date_none_or_value_error all_text :
  (find_date all_text = Ok None
   <-> Forall (fun rx => re_search rx all_text = None) DATE_RES)
  /\ (forall e, find_date all_text = Raise e ->
        e = ValueError
        /\ Exists (fun rx => is_Some (re_search rx all_text)) DATE_RES).
Proof.
  destruct (find_date_cases all_text)
    as [[Hno Hn]|(rx & rest & m & Hin & Hs & Hm)].
  - split; [tauto|]. intros e He. congruence.
  - split; [split|].
    + intros Hn. rewrite Hm in Hn. now apply date_of_match_not_none in Hn.
    + intros Hno. rewrite Forall_forall in Hno.
      rewrite (Hno rx Hin) in Hs. discriminate.
    + intros e He. rewrite Hm in He. split; [eapply date_of_match_raises, He|].
      apply Exists_exists. exists rx. split; [exact Hin|]. rewrite Hs. eauto.
Qed.

Lemma exec_slash_needs_digit n s :
  starts_without_digit s -> exec n DATE_RE_SLASH s [] accept = None.
Proof.
  destruct s as [|c s]; cbn -[is_digit]; [reflexivity|]. now intros ->.
Qed.

Lemma exec_dot_needs_digit n s :
  starts_without_digit s -> exec n DATE_RE_DOT s [] accept = None.
Proof.
  destruct s as [|c s]; cbn -[is_digit]; [reflexivity|]. now intros ->.
Qed.

Lemma search_needs_digit r n s :
  (forall n' s', starts_without_digit s' -> exec n' r s' [] accept = None) ->
  Forall (fun c => is_digit c = false) s ->
  search_from n r s = None.
Proof.
  intros Hr. induction 1 as [|c s Hc _ IH].
  - cbn [search_from]. now rewrite Hr.
  - cbn [search_from]. rewrite Hr by exact Hc. exact IH.
Qed.

Lemma find_date_needs_digit all_text :
  Forall (fun c => is_digit c = false) all_text -> find_date all_text = Ok None.
Proof.
  intros Hd. apply find_date_none. unfold DATE_RES, re_search.
  repeat constructor.
  - apply search_needs_digit; [apply exec_slash_needs_digit | exact Hd].
  - apply search_needs_digit; [apply exec_dot_needs_digit | exact Hd].
Qed.

(** X9: a text that holds no decimal digit holds no date. *)
Theorem text_without_digit_has_no_date all_text :
  Forall (fun c => is_digit c = false) all_text ->
  re_search DATE_RE_SLASH all_text = None
  /\ re_search DATE_RE_DOT all_text = None
  /\ find_date all_text = Ok None.
Proof.
  intros Hd. split; [|split].
  - apply search_needs_digit; [apply exec_slash_needs_digit | exact Hd].
  - apply search_needs_digit; [apply exec_dot_needs_digit | exact Hd].
  - now apply find_date_needs_digit.
Qed.

(** ** Pages and lines *)

Lemma join_cons sep p parts :
  parts <> [] -> join sep (p :: parts) = p ++ sep ++ join sep parts.
Proof. destruct parts; [contradiction | reflexivity]. Qed.

Lemma split_on_app_sep sep a b :
  split_on sep (a ++ sep :: b) = split_on sep a ++ split_on sep b.
Proof.
  induction a as [|c a IH].
  - cbn. now rewrite N.eqb_refl.
  - cbn [app split_on]. rewrite IH. destruct (c =? sep); [reflexivity|].
    destruct (split_on sep a) eqn:Ha; [|reflexivity].
    destruct a; cbn in Ha; [discriminate|].
    destruct (n =? sep); [discriminate|]. destruct (split_on sep a); discriminate.
Qed.

Lemma split_on_no_sep sep s : sep ∉ s -> split_on sep s = [s].
Proof.
  induction s as [|c s IH]; intros Hs; [reflexivity|].
  apply not_elem_of_cons in Hs as [Hc Hs]. cbn [split_on].
  rewrite IH by exact Hs.
  destruct (c =? sep) eqn:Hcs; [|reflexivity].
  apply N.eqb_eq in Hcs. congruence.
Qed.

Lemma split_on_join sep parts :
  parts <> [] ->
  split_on sep (join [sep] parts) = concat (map (split_on sep) parts).
Proof.
  induction parts as [|p parts IH]; [contradiction|]. intros _.
  destruct parts as [|q parts].
  - cbn. now rewrite app_nil_r.
  - rewrite join_cons by discriminate. cbn [app map concat].
    rewrite split_on_app_sep. f_equal. now apply IH.
Qed.

(** X10: [split] undoes [join]: lines without a newline, joined by
    newlines and split again, are the same lines. *)
Theorem split_undoes_join lines :
  lines <> [] ->
  Forall (fun l => 10 ∉ l) lines ->
  split_on 10 (join [10] lines) = lines.
Proof.
  intros Hne Hl. rewrite split_on_join by exact Hne.
  clear Hne. induction Hl as [|l lines Hl _ IH]; [reflexivity|].
  cbn [map concat]. rewrite split_on_no_sep by exact Hl. cbn. now rewrite IH.
Qed.

(** X11: a page break is a line break and nothing more: the lines of a
    document are the lines of its pages one after the other, a page without
    text counting as one empty line, so that the rows of the document are
    those of that one sequence of lines, with what is pending at the end of
    a page carried over to the next. *)
Theorem pages_are_read_as_one_sequence pages :
  pages <> [] ->
  split_on 10 (all_text_of pages)
  = concat (map (fun p => split_on 10 (default [] p)) pages)
  /\ forall inv_date,
       find_date (all_text_of pages) = Ok inv_date ->
       extract_pdf_to_rows pages
       = Ok (parse_lines_to_rows
               (concat (map (fun p => split_on 10 (default [] p)) pages)) inv_date).
Proof.
  intros Hne.
  assert (Hs : split_on 10 (all_text_of pages)
               = concat (map (fun p => split_on 10 (default [] p)) pages)).
  { unfold all_text_of. rewrite split_on_join.
    - now rewrite map_map.
    - destruct pages; [contradiction | discriminate]. }
  split; [exact Hs|]. intros inv_date Hd.
  unfold extract_pdf_to_rows. rewrite Hd. cbn [bind]. now rewrite Hs.
Qed.

Lemma join_newlines parts :
  Forall (fun p => p = []) parts -> Forall (fun c => c = 10) (join [10] parts).
Proof.
  induction 1 as [|p parts -> _ IH]; [constructor|].
  destruct parts as [|q parts]; [constructor|].
  rewrite join_cons by discriminate. cbn [app]. constructor; [reflexivity | exact IH].
Qed.

Lemma split_newlines s :
  Forall (fun c => c = 10) s -> Forall (fun l => l = []) (split_on 10 s).
Proof.
  induction 1 as [|c s -> _ IH]; [repeat constructor|].
  cbn [split_on]. rewrite N.eqb_refl. constructor; [reflexivity | exact IH].
Qed.

Lemma run_blank invoice_date lines st :
  Forall (fun l => l = []) lines -> run invoice_date st lines = st.
Proof.
  induction 1 as [|l lines -> _ IH]; [reflexivity|].
  rewrite run_cons. destruct st. exact IH.
Qed.

(** X12: a document whose pages all come without text gives no row and
    no failure. *)
Theorem document_without_text_gives_nothing pages :
  Forall (fun p => default [] p = []) pages ->
  extract_pdf_to_rows pages = Ok [].
Proof.
  intros Hp.
  assert (Ht : Forall (fun c => c = 10) (all_text_of pages)).
  { unfold all_text_of. apply join_newlines. now apply Forall_map. }
  unfold extract_pdf_to_rows. rewrite find_date_needs_digit.
  - cbn [bind]. rewrite parse_lines_to_rows_run, run_blank; [reflexivity|].
    now apply split_newlines.
  - eapply Forall_impl; [exact Ht|]. now intros c ->.
Qed.

(** X13: the documents of a batch are read apart from one another: the
    rows written for two lists of documents put together are the rows of
    the first followed by the rows of the second, under the same fixed
    header, so that nothing pending in one document reaches the next. *)
Theorem batch_rows_are_concatenated docs1 docs2 :
  fst (extract_invoices_to_csv (docs1 ++ docs2))
  = [u "name"; u "type"; u "price-kg"; u "QTE x P.U"; u "amount"; u "date"]
  /\ snd (extract_invoices_to_csv (docs1 ++ docs2))
     = snd (extract_invoices_to_csv docs1) ++ snd (extract_invoices_to_csv docs2)
  /\ forall pages rows,
       extract_pdf_to_rows pages = Ok rows ->
       snd (extract_invoices_to_csv (docs1 ++ pages :: docs2))
       = snd (extract_invoices_to_csv docs1) ++ rows
         ++ snd (extract_invoices_to_csv docs2).
Proof.
  unfold extract_invoices_to_csv. cbn [fst snd].
  split; [reflexivity|]. split; [apply collect_rows_app|].
  intros pages rows Hr. rewrite collect_rows_app. cbn [collect_rows].
  now rewrite Hr.
Qed.

End InvoiceParserInvariants.

(** ** The names of the rows *)

Section NameCleaning.

Context `{UnicodeData}.

Lemma lstrip_length s : (length (lstrip s) <= length s)%nat.
Proof.
  destruct (lstrip_suffix s) as [w Hw]. rewrite Hw at 2. rewrite length_app. lia.
Qed.

Lemma leading_spaces_cons c s :
  leading_spaces (c :: s) = if is_space c then S (leading_spaces s) else O.
Proof.
  unfold leading_spaces. cbn [lstrip]. pose proof (lstrip_length s).
  destruct (is_space c); cbn [length]; lia.
Qed.

Lemma drop_leading_spaces s : drop (leading_spaces s) s = lstrip s.
Proof.
  unfold leading_spaces. destruct (lstrip_suffix s) as [w Hw].
  rewrite Hw at 1 3. rewrite length_app.
  replace (length w + length (lstrip s) - length (lstrip s))%nat with (length w) by lia.
  apply drop_app_length.
Qed.

(** A greedy run of spaces takes all the spaces there are. *)
Lemma rep_spaces s : forall lo,
  rep is_space lo None true s (fun s' => accept s' [])
  = if (lo <=? leading_spaces s)%nat then Some (lstrip s, []) else None.
Proof.
  induction s as [|c s IH]; intros lo.
  - cbn. now destruct lo.
  - cbn [rep fmap option_fmap option_map]. rewrite leading_spaces_cons. cbn [lstrip].
    destruct (is_space c) eqn:Hc.
    + rewrite IH.
      destruct lo as [|lo]; cbn [Nat.pred Nat.leb]; [reflexivity|].
      now destruct (lo <=? leading_spaces s)%nat.
    + destruct lo; reflexivity.
Qed.

Lemma exec_spaces n s :
  exec n SPACES_RE s [] accept
  = if (2 <=? leading_spaces s)%nat then Some (lstrip s, []) else None.
Proof. unfold SPACES_RE. cbn [exec in_class]. apply (rep_spaces s 2). Qed.

Lemma sub_from_skip n r repl s : forall skip,
  (skip <= length s)%nat ->
  sub_from n r repl s skip = sub_from n r repl (drop skip s) 0.
Proof.
  induction s as [|c s IH]; intros [|skip] Hs; try reflexivity.
  cbn [sub_from drop]. apply IH. cbn in Hs. lia.
Qed.

Lemma no_double_space_cons c t :
  no_double_space t -> is_space c = false \/ no_leading_space t ->
  no_double_space (c :: t).
Proof.
  intros Ht Hc. destruct t as [|c2 t]; [exact I|].
  split; [|exact Ht]. destruct Hc as [Hc|Hc]; [now left | now right].
Qed.

Lemma collapse_spaces n m : forall s,
  (length s <= m)%nat ->
  no_double_space (sub_from n SPACES_RE [32] s 0)
  /\ (no_leading_space s -> no_leading_space (sub_from n SPACES_RE [32] s 0)).
Proof.
  induction m as [|m IH]; intros s Hs.
  - destruct s; [|cbn in Hs; lia]. cbn. tauto.
  - destruct s as [|c s]; [cbn; tauto|].
    cbn [sub_from]. rewrite exec_spaces.
    destruct (2 <=? leading_spaces (c :: s))%nat eqn:Hl.
    + apply Nat.leb_le in Hl.
      assert (Hd : drop (leading_spaces (c :: s)) (c :: s) = lstrip (c :: s))
        by apply drop_leading_spaces.
      unfold leading_spaces in Hl, Hd.
      destruct (length (c :: s) - length (lstrip (c :: s)))%nat as [|k] eqn:Hk; [lia|].
      cbn [drop] in Hd. cbn [app].
      assert (Hlen : (length (lstrip (c :: s)) <= m)%nat) by (cbn [length] in *; lia).
      rewrite sub_from_skip by (cbn [length] in *; lia). rewrite Hd.
      destruct (IH _ Hlen) as [Hnd Hnl]. split.
      * apply no_double_space_cons; [exact Hnd|]. right.
        apply Hnl, lstrip_no_leading_space.
      * cbn [no_leading_space]. intros Hc.
        pose proof (leading_spaces_cons c s) as Hls. unfold leading_spaces in Hls.
        rewrite Hc, Hk in Hls. discriminate.
    + apply Nat.leb_gt in Hl. rewrite leading_spaces_cons in Hl.
      assert (Hlen : (length s <= m)%nat) by (cbn in Hs; lia).
      destruct (IH _ Hlen) as [Hnd Hnl]. split; [|cbn; tauto].
      apply no_double_space_cons; [exact Hnd|].
      destruct (is_space c) eqn:Hc; [right | now left].
      apply Hnl. assert (Hz : leading_spaces s = O) by lia.
      unfold leading_spaces in Hz. pose proof (lstrip_length s).
      destruct (lstrip_suffix s) as [w Hw].
      assert (length w = O).
      { apply (f_equal length) in Hw. rewrite length_app in Hw. lia. }
      destruct w; [|discriminate]. cbn in Hw. rewrite Hw.
      apply lstrip_no_leading_space.
Qed.

Lemma classify_product_name raw name qte_pu amount :
  classify raw = Product name qte_pu amount -> exists m, name = clean_name m.
Proof.
  unfold classify. case_bool_decide; [discriminate|].
  destruct (re_match PRICE_KG_RE _) as [[rest m]|]; [discriminate|].
  destruct (existsb _ _); [discriminate|].
  destruct (re_match PRODUCT_RE _) as [[rest m]|]; [|discriminate].
  intros [= <- _ _]. eauto.
Qed.

Lemma clean_name_spaces m :
  no_double_space (clean_name m) /\ no_leading_space (clean_name m).
Proof.
  unfold clean_name, re_sub. change (u " ") with [32].
  set (s := strip (re_sub NAME_PERCENT_RE [] (strip (group "name" m)))).
  destruct (collapse_spaces (length s) (length s) s (le_n _)) as [Hd Hl].
  split; [exact Hd|]. apply Hl.
  apply rstrip_no_leading_space, lstrip_no_leading_space.
Qed.

Lemma run_names invoice_date lines : forall st,
  Forall (fun r => no_double_space (row_name r) /\ no_leading_space (row_name r))
    (fst st) ->
  Forall (fun r => no_double_space (row_name r) /\ no_leading_space (row_name r))
    (fst (run invoice_date st lines)).
Proof.
  induction lines as [|raw lines IH]; intros st Hst; [exact Hst|].
  rewrite run_cons. apply IH.
  destruct (classify raw) eqn:Hc; cbn [apply_class]; try exact Hst.
  destruct (is_discount name); cbn [fst]; [exact Hst|].
  apply Forall_app. split; [exact Hst|].
  destruct (classify_product_name _ _ _ _ Hc) as [m ->].
  repeat constructor; apply clean_name_spaces.
Qed.

(** X20: the name of a row never begins with white space and never holds
    two white-space characters in a row. *)
Theorem names_have_single_spaces lines invoice_date :
  Forall (fun r => no_double_space (row_name r) /\ no_leading_space (row_name r))
    (parse_lines_to_rows lines invoice_date).
Proof. rewrite parse_lines_to_rows_run. apply run_names. constructor. Qed.

End NameCleaning.

(** ** The rows and the queue *)

Section RowsAndQueue.

Context `{UnicodeData}.

Lemma run_no_discount invoice_date lines : forall st,
  Forall (fun r => is_discount (row_name r) = false) (fst st) ->
  Forall (fun r => is_discount (row_name r) = false)
    (fst (run invoice_date st lines)).
Proof.
  induction lines as [|raw lines IH]; intros st Hst; [exact Hst|].
  rewrite run_cons. apply IH.
  destruct (classify raw); cbn [apply_class]; try exact Hst.
  destruct (is_discount name) eqn:Hd; cbn [fst]; [exact Hst|].
  apply Forall_app. split; [exact Hst|]. repeat constructor. exact Hd.
Qed.

(** X21: no row has a name that begins with "remise", in whatever case. *)
Theorem no_row_is_a_discount lines invoice_date :
  Forall (fun r => startswith (lower (row_name r)) (u "remise") = false)
    (parse_lines_to_rows lines invoice_date).
Proof. rewrite parse_lines_to_rows_run. apply run_no_discount. constructor. Qed.

Lemma display_weight_price_not_empty m : display_weight_price m <> [].
Proof.
  unfold display_weight_price. change (u "kg x ") with [107; 103; 32; 120; 32].
  intros Heq. apply (f_equal length) in Heq.
  rewrite !length_app in Heq. cbn [length] in Heq. lia.
Qed.

Lemma weights_not_empty lines : Forall (fun s => s <> []) (weights lines).
Proof.
  induction lines as [|raw lines IH]; [constructor|].
  rewrite weights_cons. destruct (classify raw) eqn:Hc; try exact IH.
  constructor; [|exact IH].
  unfold classify in Hc. case_bool_decide; [discriminate|].
  destruct (re_match PRICE_KG_RE _) as [[rest m]|].
  - injection Hc as <-. apply display_weight_price_not_empty.
  - destruct (existsb _ _); [discriminate|].
    destruct (re_match PRODUCT_RE _) as [[? ?]|]; discriminate.
Qed.

Lemma priced_app rows1 rows2 : priced (rows1 ++ rows2) = priced rows1 ++ priced rows2.
Proof. unfold priced. now rewrite map_app, filter_app. Qed.

Lemma served_in_order invoice_date lines :
  exists k,
    (k <= length (weights lines))%nat
    /\ snd (run invoice_date ([], []) lines) = drop k (weights lines)
    /\ sublist (priced (fst (run invoice_date ([], []) lines)))
         (take k (weights lines)).
Proof.
  induction lines as [|raw lines IH] using rev_ind.
  - exists O. cbn. repeat split; [lia | constructor].
  - destruct IH as (k & Hk & Hq & Hs).
    pose proof (weights_not_empty (lines ++ [raw])) as Hne.
    rewrite run_app, weights_app in *. cbn [run foldl]. rewrite parse_line_classify.
    fold (run invoice_date ([], []) lines).
    assert (Hw : weights [raw] =
                 match classify raw with WeightPrice s => [s] | _ => [] end).
    { rewrite weights_cons. destruct (classify raw); reflexivity. }
    rewrite Hw in *. clear Hw.
    destruct (run invoice_date ([], []) lines) as [out pending].
    cbn [fst snd] in *. subst pending.
    destruct (classify raw) eqn:Hc; cbn [apply_class fst snd];
      try (exists k; rewrite app_nil_r; repeat split; assumption).
    + exists k. rewrite length_app, drop_app_le, take_app_le by exact Hk.
      cbn [length]. repeat split; [lia | exact Hs].
    + rewrite app_nil_r in *.
      destruct (drop k (weights lines)) as [|w q] eqn:Hd.
      * exists k. cbn [hd tl]. split; [exact Hk|].
        destruct (is_discount name); cbn [fst snd]; (split; [now rewrite Hd|]);
          [exact Hs|].
        rewrite priced_app. unfold priced at 2. cbn [map row_price_kg].
        rewrite filter_cons_False by tauto. rewrite filter_nil, app_nil_r. exact Hs.
      * assert (Hlk : weights lines !! k = Some w).
        { rewrite <- (Nat.add_0_r k), <- lookup_drop, Hd. reflexivity. }
        assert (Hlt : (k < length (weights lines))%nat)
          by (eapply lookup_lt_Some, Hlk).
        assert (Hq : q = drop (S k) (weights lines)).
        { rewrite (drop_S _ _ _ Hlk) in Hd. congruence. }
        assert (Hwne : w <> []).
        { rewrite Forall_forall in Hne. apply Hne.
          eapply list_elem_of_lookup_2, Hlk. }
        exists (S k). rewrite (take_S_r _ _ _ Hlk). cbn [hd tl].
        split; [lia|].
        destruct (is_discount name); cbn [fst snd]; (split; [exact Hq|]).
        -- now apply sublist_inserts_r.
        -- rewrite priced_app. apply sublist_app; [exact Hs|].
           unfold priced. cbn [map row_price_kg].
           rewrite filter_cons_True by exact Hwne. reflexivity.
Qed.

(** X22: the weight-prices on the rows of a document, read from the first
    row to the last, are weight-price lines of the document in the order
    of these lines, none of them used twice. *)
Theorem weight_prices_follow_the_document lines invoice_date :
  sublist (priced (parse_lines_to_rows lines invoice_date)) (weights lines).
Proof.
  rewrite parse_lines_to_rows_run.
  destruct (served_in_order invoice_date lines) as (k & _ & _ & Hs).
  etransitivity; [exact Hs | apply sublist_take].
Qed.

End RowsAndQueue.

(** * Further properties of the merge utility *)

Section MergeCsvInvariants.

(** ** Deduplication *)

Lemma unique_rows_spec rows : forall seen,
  NoDup (unique_rows seen rows)
  /\ (forall r, r ∈ unique_rows seen rows <-> r ∈ rows /\ r ∉ seen)
  /\ sublist (unique_rows seen rows) rows.
Proof.
  induction rows as [|r rows IH]; intros seen.
  - cbn. split; [constructor|]. split; [|constructor].
    intros r. rewrite elem_of_nil. tauto.
  - cbn [unique_rows]. case_bool_decide as Hr.
    + destruct (IH seen) as (Hn & Hm & Hs). split; [exact Hn|]. split.
      * intros r'. rewrite Hm, elem_of_cons. split; [tauto|].
        intros [[->|Hin] Hns]; tauto.
      * now constructor.
    + destruct (IH ({[r]} ∪ seen)) as (Hn & Hm & Hs). split; [|split].
      * apply NoDup_cons. split; [|exact Hn]. rewrite Hm. set_solver.
      * intros r'. rewrite !elem_of_cons, Hm. split.
        -- intros [->|[Hin Hns]]; [tauto|]. split; [tauto|set_solver].
        -- intros [[->|Hin] Hns]; [tauto|].
           destruct (decide (r' = r)) as [->|Hne]; [tauto|].
           right. split; [exact Hin|set_solver].
      * now constructor.
Qed.

Lemma unique_rows_app l1 : forall seen l2,
  unique_rows seen (l1 ++ l2)
  = unique_rows seen l1 ++ unique_rows (list_to_set l1 ∪ seen) l2.
Proof.
  induction l1 as [|r l1 IH]; intros seen l2.
  - cbn [app unique_rows list_to_set]. f_equal. set_solver.
  - cbn [app unique_rows]. case_bool_decide as Hr.
    + rewrite IH. do 2 f_equal. set_solver.
    + cbn [app]. rewrite IH. do 3 f_equal. set_solver.
Qed.

Lemma unique_rows_fixed rows : forall seen,
  NoDup rows -> (forall r, r ∈ rows -> r ∉ seen) ->
  unique_rows seen rows = rows.
Proof.
  induction rows as [|r rows IH]; intros seen Hn Hs; [reflexivity|].
  apply NoDup_cons in Hn as [Hr Hn]. cbn [unique_rows].
  rewrite bool_decide_eq_false_2 by (apply Hs; now left).
  f_equal. apply IH; [exact Hn|]. intros r' Hin.
  assert (r' <> r) by congruence.
  assert (r' ∉ seen) by (apply Hs; now right). set_solver.
Qed.

(** X14: deduplication keeps each row once, at the place where it first
    stands: the result has no row twice, holds the rows of the input and no
    other, in their order; what it gives for the first part of a list is left
    untouched by what follows; and a list without a double row is returned
    as it is, so that deduplicating twice is deduplicating once. *)
Theorem dedupe_keeps_first_occurrences rows :
  NoDup (unique_rows ∅ rows)
  /\ (forall r, r ∈ unique_rows ∅ rows <-> r ∈ rows)
  /\ sublist (unique_rows ∅ rows) rows
  /\ (forall l1 l2, rows = l1 ++ l2 ->
        exists rest, unique_rows ∅ rows = unique_rows ∅ l1 ++ rest)
  /\ (NoDup rows -> unique_rows ∅ rows = rows)
  /\ unique_rows ∅ (unique_rows ∅ rows) = unique_rows ∅ rows.
Proof.
  destruct (unique_rows_spec rows ∅) as (Hn & Hm & Hs).
  split; [exact Hn|]. split; [|split; [exact Hs|split; [|split]]].
  - intros r. rewrite Hm. set_solver.
  - intros l1 l2 ->. rewrite unique_rows_app. eauto.
  - intros Hnd. apply unique_rows_fixed; [exact Hnd | set_solver].
  - apply unique_rows_fixed; [exact Hn | set_solver].
Qed.

(** ** Sorting *)

Lemma str_ltb_irrefl a : str_ltb a a = false.
Proof.
  induction a as [|x a IH]; [reflexivity|].
  cbn [str_ltb]. now rewrite N.ltb_irrefl, N.eqb_refl, IH.
Qed.

Lemma str_ltb_asym a : forall b, str_ltb a b = true -> str_ltb b a = false.
Proof.
  induction a as [|x a IH]; intros [|y b]; cbn [str_ltb]; try congruence.
  intros Hab. apply orb_true_iff in Hab.
  apply orb_false_iff. destruct Hab as [Hlt|Heq].
  - apply N.ltb_lt in Hlt. split; [apply N.ltb_ge; lia|].
    apply andb_false_iff. left. apply N.eqb_neq. lia.
  - apply andb_true_iff in Heq as [Hxy Hab]. apply N.eqb_eq in Hxy. subst y.
    split; [apply N.ltb_irrefl|]. rewrite N.eqb_refl. cbn. now apply IH.
Qed.

Lemma insert_sorted_perm idx x l : insert_sorted idx x l ≡ₚ x :: l.
Proof.
  induction l as [|y l IH]; [reflexivity|].
  cbn [insert_sorted]. destruct (str_ltb _ _); [|reflexivity].
  rewrite IH. apply Permutation_swap.
Qed.

Lemma insertion_sort_perm idx rows : foldr (insert_sorted idx) [] rows ≡ₚ rows.
Proof.
  induction rows as [|r rows IH]; [reflexivity|].
  cbn [foldr]. now rewrite insert_sorted_perm, IH.
Qed.

Lemma insert_sorted_hd idx x y l :
  HdRel (fun r1 r2 => str_ltb (key_at idx r2) (key_at idx r1) = false) y l ->
  str_ltb (key_at idx x) (key_at idx y) = false ->
  HdRel (fun r1 r2 => str_ltb (key_at idx r2) (key_at idx r1) = false) y
    (insert_sorted idx x l).
Proof.
  intros Hl Hx. destruct l as [|z l]; cbn [insert_sorted]; [now constructor|].
  destruct (str_ltb (key_at idx z) (key_at idx x)); constructor; [|exact Hx].
  now inversion Hl.
Qed.

Lemma insert_sorted_sorted idx x l :
  sorted_by idx l -> sorted_by idx (insert_sorted idx x l).
Proof.
  unfold sorted_by. induction 1 as [|y l Hs IH Hh].
  - cbn. repeat constructor.
  - cbn [insert_sorted]. destruct (str_ltb (key_at idx y) (key_at idx x)) eqn:Hyx.
    + constructor; [exact IH|]. apply insert_sorted_hd; [exact Hh|].
      now apply str_ltb_asym.
    + constructor; [now constructor|]. now constructor.
Qed.

Lemma insertion_sort_sorted idx rows :
  sorted_by idx (foldr (insert_sorted idx) [] rows).
Proof.
  induction rows as [|r rows IH]; [constructor|].
  cbn [foldr]. now apply insert_sorted_sorted.
Qed.

Lemma insert_sorted_filter idx k x l :
  filter (fun r => key_at idx r = k) (insert_sorted idx x l)
  = filter (fun r => key_at idx r = k) (x :: l).
Proof.
  induction l as [|y l IH]; [reflexivity|].
  cbn [insert_sorted]. destruct (str_ltb (key_at idx y) (key_at idx x)) eqn:Hyx;
    [|reflexivity].
  rewrite (filter_cons _ y), IH, !filter_cons.
  destruct (decide (key_at idx y = k)) as [Hy|Hy];
    destruct (decide (key_at idx x = k)) as [Hx|Hx]; try reflexivity.
  rewrite Hy, Hx, str_ltb_irrefl in Hyx. discriminate.
Qed.

Lemma insertion_sort_filter idx k rows :
  filter (fun r => key_at idx r = k) (foldr (insert_sorted idx) [] rows)
  = filter (fun r => key_at idx r = k) rows.
Proof.
  induction rows as [|r rows IH]; [reflexivity|].
  cbn [foldr]. rewrite insert_sorted_filter, !filter_cons, IH. reflexivity.
Qed.

(** X15: when the sort goes through, its result holds the same rows, each
    as often as before, in the order of their keys, and rows of one key
    keep the order they had.  The sort fails, with [TypeError], only when
    there are two rows or more and one of them has no cell to compare. *)
Theorem sort_rows_sorts idx rows :
  (forall sorted,
      sort_rows idx rows = Ok sorted ->
      sorted ≡ₚ rows
      /\ sorted_by idx sorted
      /\ forall k, filter (fun r => key_at idx r = k) sorted
                   = filter (fun r => key_at idx r = k) rows)
  /\ (forall e,
        sort_rows idx rows = Raise e ->
        e = TypeError /\ (2 <= length rows)%nat
        /\ Exists (fun r => mjoin (r !! idx) = None) rows)
  /\ ((length rows <= 1)%nat -> sort_rows idx rows = Ok rows).
Proof.
  unfold sort_rows.
  destruct ((2 <=? length rows)%nat && existsb _ rows) eqn:Hc.
  - split; [discriminate|]. split.
    + intros e [= <-]. apply andb_true_iff in Hc as [Hlen Hex].
      split; [reflexivity|]. split; [now apply Nat.leb_le|].
      apply existsb_exists in Hex as (r & Hin & Hr).
      apply Exists_exists. exists r. split; [now apply list_elem_of_In|].
      now apply bool_decide_eq_true in Hr.
    + intros Hlen. apply andb_true_iff in Hc as [Hle _].
      apply Nat.leb_le in Hle. lia.
  - split; [|split; [discriminate|]].
    + intros sorted [= <-]. split; [apply insertion_sort_perm|].
      split; [apply insertion_sort_sorted|]. intros k. apply insertion_sort_filter.
    + intros Hlen. destruct rows as [|r [|r' rows]]; cbn in *; [reflexivity..|lia].
Qed.

(** ** The table written *)

Lemma merge_file_fit st f st' :
  rows_fit st -> merge_file st (Ok f) = Ok st' ->
  rows_fit st'
  /\ length (snd st')
     = (length (snd st)
        + if bool_decide (csv_header f = []) then 0 else length (csv_rows f))%nat.
Proof.
  destruct st as [fh rows]. intros [Hw He]. cbn [fst snd] in *.
  unfold merge_file. cbn [bind].
  case_bool_decide as Hh; cbn [bind].
  { intros [= <-]. cbn [fst snd]. split; [now split | lia]. }
  case_bool_decide as Hfh; cbn [bind].
  - intros [= <-]. rewrite (He Hfh). cbn [fst snd app length]. split.
    + split; [|intros ?; contradiction].
      apply Forall_fmap, Forall_true. intros rd. cbn. now rewrite length_map.
    + now rewrite length_map.
  - destruct (columns_differ _ _); cbn [bind]; [discriminate|].
    intros [= <-]. cbn [fst snd]. rewrite length_app, length_map. split; [|lia].
    split; [|intros ?; contradiction]. apply Forall_app. split; [exact Hw|].
    apply Forall_fmap, Forall_true. intros rd. cbn. now rewrite length_map.
Qed.

Lemma merge_files_fit files : forall st st',
  rows_fit st -> merge_files st (map Ok files) = Ok st' ->
  rows_fit st' /\ length (snd st') = (length (snd st) + data_rows files)%nat.
Proof.
  induction files as [|f files IH]; intros st st' Hst.
  - cbn. intros [= <-]. split; [exact Hst | lia].
  - cbn [map merge_files data_rows].
    destruct (merge_file st (Ok f)) as [st1|e] eqn:Hf; cbn [bind]; [|discriminate].
    destruct (merge_file_fit _ _ _ Hst Hf) as [Hfit Hlen]. intros Hm.
    destruct (IH _ _ Hfit Hm) as [Hfit' Hlen']. split; [exact Hfit'|].
    rewrite Hlen', Hlen. case_bool_decide; lia.
Qed.

Lemma merge_files_only_ok ps : forall st st',
  merge_files st ps = Ok st' -> exists files, ps = map Ok files.
Proof.
  induction ps as [|p ps IH]; intros st st'; [now exists []|].
  cbn [merge_files]. destruct p as [f|e]; [|discriminate].
  destruct (merge_file st (Ok f)) as [st1|e]; cbn [bind]; [|discriminate].
  intros Hm. destruct (IH _ _ Hm) as [files ->]. now exists (f :: files).
Qed.

Lemma sort_rows_perm idx rows sorted :
  sort_rows idx rows = Ok sorted -> sorted ≡ₚ rows.
Proof.
  unfold sort_rows. destruct (_ && _); [discriminate|].
  intros [= <-]. apply insertion_sort_perm.
Qed.

(** What [merge_csv_folder] does before it writes. *)
Lemma merge_csv_folder_ok a d p d' :
  merge_csv_folder a d = (Ok p, d') ->
  exists files fh merged rows,
    paths a = map Ok files
    /\ merge_files ([], []) (map Ok files) = Ok (fh, merged)
    /\ rows ≡ₚ (if dedupe a then unique_rows ∅ merged else merged)
    /\ p = output_csv a /\ d' = (output_csv a, (fh, rows)) :: d.
Proof.
  destruct a as [dir ps out dd sb]. unfold merge_csv_folder.
  cbn [folder_is_dir paths output_csv dedupe sort_by].
  destruct dir; cbn [negb]; [|discriminate].
  case_bool_decide; [discriminate|].
  destruct (merge_files ([], []) ps) as [[fh merged]|e] eqn:Hm; cbn [bind];
    [|discriminate].
  destruct (merge_files_only_ok _ _ _ Hm) as [files ->].
  destruct (truthy sb) as [col|].
  - case_bool_decide; cbn [bind]; [|discriminate].
    destruct (sort_rows _ _) as [rows|e] eqn:Hs; cbn [bind]; [|discriminate].
    intros [= <- <-]. exists files, fh, merged, rows.
    split; [reflexivity|]. split; [exact Hm|].
    split; [now apply sort_rows_perm in Hs|]. split; reflexivity.
  - cbn [bind]. intros [= <- <-].
    exists files, fh, merged, (if dd then unique_rows ∅ merged else merged).
    split; [reflexivity|]. split; [exact Hm|].
    split; [reflexivity|]. split; reflexivity.
Qed.

(** X16: when [merge_csv_folder] succeeds every file was read and one
    file has been written, at the path given as [output_csv]: its header is
    the header of the first file that has one and every row has as many
    cells as that header.  When it fails, for whatever reason, nothing is
    written. *)
Theorem merge_writes_one_rectangular_table a d :
  (forall p d',
      merge_csv_folder a d = (Ok p, d') ->
      exists files rows,
        paths a = map Ok files
        /\ d' = (output_csv a, (first_header_of files, rows)) :: d
        /\ Forall (fun r => length r = length (first_header_of files)) rows)
  /\ (forall e d', merge_csv_folder a d = (Raise e, d') -> d' = d).
Proof.
  split.
  - intros p d' Hok.
    destruct (merge_csv_folder_ok _ _ _ _ Hok)
      as (files & fh & merged & rows & Hp & Hm & Hperm & -> & ->).
    exists files, rows.
    assert (Hfh : fh = first_header_of files).
    { destruct (merge_files_read files ([], [])) as [Hr|[rows' Hr]];
        rewrite Hr in Hm; [discriminate|].
      injection Hm as <- _. reflexivity. }
    destruct (merge_files_fit files ([], []) _ (conj (Forall_nil_2 _) (fun _ => eq_refl)) Hm)
      as [[Hw _] _].
    cbn [fst snd] in Hw. subst fh.
    split; [exact Hp|]. split; [reflexivity|].
    rewrite Hperm. destruct (dedupe a); [|exact Hw].
    rewrite Forall_forall in Hw |- *. intros r Hr. apply Hw.
    now apply (unique_rows_spec merged ∅) in Hr as [Hr _].
  - intros e d'. unfold merge_csv_folder.
    destruct (if negb (folder_is_dir a) then _ else _); now intros [= _ ->].
Qed.


Lemma index_of_lookup col fh : col ∈ fh -> fh !! index_of col fh = Some col.
Proof.
  induction fh as [|c fh IH]; [now rewrite elem_of_nil|].
  intros Hin. cbn [index_of]. case_bool_decide as Hc; [now subst|].
  apply elem_of_cons in Hin as [->|Hin]; [congruence|]. now apply IH.
Qed.

(** X18: a file whose columns are those of the first header, in whatever
    order, is accepted, and each of its rows is written in the order of the
    first header: the cell under a column is what the row of the file has
    for that column, or the empty string if it has nothing. *)
Theorem merged_cells_follow_the_first_header fh rows f :
  fh <> [] ->
  csv_header f <> [] ->
  (forall col, col ∈ csv_header f <-> col ∈ fh) ->
  merge_file (fh, rows) (Ok f)
  = Ok (fh, rows ++ map (fun rd => map (dict_get rd) fh) (csv_rows f))
  /\ forall rd col,
       col ∈ fh ->
       map (dict_get rd) fh !! index_of col fh
       = Some (default (Some []) (rd !! col)).
Proof.
  intros Hfh Hh Hsame. split.
  - unfold merge_file. cbn [bind].
    rewrite bool_decide_eq_false_2 by exact Hh.
    rewrite bool_decide_eq_false_2 by exact Hfh.
    unfold columns_differ. rewrite bool_decide_eq_false_2; [reflexivity|].
    intros Hne. apply Hne. apply set_eq. intros col.
    rewrite !elem_of_list_to_set. apply Hsame.
  - intros rd col Hcol.
    change (map (dict_get rd) fh) with (dict_get rd <$> fh).
    rewrite list_lookup_fmap, index_of_lookup by exact Hcol. reflexivity.
Qed.

(** X19: when the files agree up to one that cannot be read, the merge
    fails with the error of that reading and writes nothing. *)
Theorem read_failure_stops_the_merge a d files e post :
  folder_is_dir a = true ->
  paths a = map Ok files ++ Raise e :: post ->
  Forall (fun f => csv_header f = [] \/
            columns_differ (csv_header f) (first_header_of files) = false) files ->
  merge_csv_folder a d = (Raise e, d).
Proof.
  destruct a as [dir ps out dd sb].
  cbn [folder_is_dir paths]. intros -> -> Hall.
  unfold merge_csv_folder.
  cbn [folder_is_dir paths output_csv dedupe sort_by negb].
  case_bool_decide as Hnil; [destruct files; discriminate|].
  rewrite merge_files_app.
  destruct (merge_files_agree files ([], [])) as [rows ->].
  { cbn [fst]. unfold header_after.
    now rewrite bool_decide_eq_true_2 by reflexivity. }
  reflexivity.
Qed.

End MergeCsvInvariants.

(** * The further properties on concrete receipts and folders *)

Section MoreExamples.

#[local] Existing Instance receipt_tables.

Ltac by_computation := cbv beta; apply (bool_decide_unpack _); vm_compute; exact I.

Lemma find_date_gives_a_calendar_date_witness :
  find_date (u "CARREFOUR 29.02.124 18:05 MERCI") = Ok (Some (u "29/02/124"))
  /\ exists d mth y,
       u "29/02/124"
       = two_digits d ++ u "/" ++ two_digits mth ++ u "/" ++ year_digits y
       /\ 1 <= mth <= 12 /\ 1 <= d <= days_in_month y mth /\ d <= 31
       /\ 100 <= y <= 9999
       /\ length (u "29/02/124") = (if y <? 1000 then 9%nat else 10%nat)
       /\ Forall (fun c => c = lit "/" \/ between 48 57 c = true) (u "29/02/124").
Proof.
  split; [vm_compute; reflexivity|].
  apply (find_date_gives_a_calendar_date (u "CARREFOUR 29.02.124 18:05 MERCI")).
  vm_compute. reflexivity.
Defined.

Lemma text_without_digit_has_no_date_witness :
  re_search DATE_RE_SLASH (u "CARREFOUR CITY / MERCI DE VOTRE VISITE") = None
  /\ re_search DATE_RE_DOT (u "CARREFOUR CITY / MERCI DE VOTRE VISITE") = None
  /\ find_date (u "CARREFOUR CITY / MERCI DE VOTRE VISITE") = Ok None.
Proof.
  apply (text_without_digit_has_no_date (u "CARREFOUR CITY / MERCI DE VOTRE VISITE")).
  vm_compute. repeat constructor.
Defined.

Lemma split_undoes_join_witness :
  split_on 10 (join [10] [u "PAIN 1 x 1.00 1.00"; u ""; u "TOTAL 1.00"])
  = [u "PAIN 1 x 1.00 1.00"; u ""; u "TOTAL 1.00"].
Proof.
  apply (split_undoes_join [u "PAIN 1 x 1.00 1.00"; u ""; u "TOTAL 1.00"]).
  - discriminate.
  - repeat (apply List.Forall_cons; [by_computation|]). apply List.Forall_nil.
Defined.

Lemma pages_are_read_as_one_sequence_witness :
  let pages :=
    [Some (join [10] [u "12/05/2024 14:32"; u "0.350 kg x 12,50 €/kg"]);
     None;
     Some (u "CHISTORRA 1 x 4.38 4.38")] in
  split_on 10 (all_text_of pages)
  = concat (map (fun p => split_on 10 (default [] p)) pages)
  /\ extract_pdf_to_rows pages
     = Ok [mkRow (u "CHISTORRA") [] (u "0.350kg x 12.50€/kg") (u "1 x 4.38")
             (u "4.38") (u "12/05/2024")].
Proof.
  intros pages.
  destruct (pages_are_read_as_one_sequence pages) as [Hs Hr]; [discriminate|].
  split; [exact Hs|].
  rewrite (Hr (Some (u "12/05/2024"))); vm_compute; reflexivity.
Defined.

Lemma document_without_text_gives_nothing_witness :
  extract_pdf_to_rows [None; Some []; None] = Ok [].
Proof.
  apply (document_without_text_gives_nothing [None; Some []; None]).
  repeat constructor.
Defined.


Lemma merged_cells_follow_the_first_header_witness :
  let fh := [u "name"; u "date"] in
  let rd : gmap str cell := {[ u "date" := Some (u "12/05/2024") ]} in
  let f := mkCsv [u "date"; u "name"] [rd] in
  merge_file (fh, []) (Ok f)
  = Ok (fh, [] ++ map (fun rd => map (dict_get rd) fh) (csv_rows f))
  /\ forall rd col,
       col ∈ fh ->
       map (dict_get rd) fh !! index_of col fh
       = Some (default (Some []) (rd !! col)).
Proof.
  intros fh rd f.
  apply (merged_cells_follow_the_first_header fh [] f).
  - discriminate.
  - discriminate.
  - intros col. unfold fh, f. cbn [csv_header].
    rewrite !elem_of_cons, elem_of_nil. tauto.
Defined.

Lemma read_failure_stops_the_merge_witness :
  let f1 := mkCsv [u "name"; u "date"] [] in
  let d := [(u "old.csv", ([u "name"], []))] in
  merge_csv_folder
    (mkArgs true [Ok f1; Raise DecodeError; Ok (mkCsv [u "other"] [])]
       (u "merged.csv") true (Some (u "name"))) d
  = (Raise DecodeError, d).
Proof.
  intros f1 d.
  apply (read_failure_stops_the_merge _ d [f1] DecodeError [Ok (mkCsv [u "other"] [])]).
  - reflexivity.
  - reflexivity.
  - apply List.Forall_cons; [|apply List.Forall_nil].
    right. vm_compute. reflexivity.
Defined.

End MoreExamples.
